(** * Synthetic price stream generator: model of [generator.py] and its properties

    The per-second price generator combines a GJR-GARCH(1,1) volatility
    recursion, an intraday seasonality factor, multi-timeframe mean-reversion
    bands and a three-valued boundary trend.

    Numbers.  Python floats are modelled as real numbers: arithmetic is exact,
    there is no rounding, infinity or NaN.  The exceptions of the arithmetic
    are written out: [math.sqrt] and [math.log] raise [ValueError] outside
    their domain, and [x ** 2] and [math.exp] raise [OverflowError] when the
    result exceeds the largest float (the test is made on the exact result).
    A missing dictionary key raises [KeyError].  Python ints are [Z].

    State.  [_generate_one_second] mutates the stream object in place, so the
    model passes the state explicitly and returns the state as it stands when
    the call ends, also when the call ends by raising. *)

From Stdlib Require Import Reals Lra Lia ZArith List.
From stdpp Require Import gmap strings.
Import ListNotations.
Open Scope R_scope.

(** ** Exceptions and results *)

Inductive exn : Type :=
| ValueError            (* "math domain error" of math.sqrt and math.log *)
| KeyError (k : string) (* subscript of a dict by a key it does not hold *)
| OverflowError         (* float power or math.exp out of the range of floats *).

Inductive result (A : Type) : Type :=
| Ok (a : A)
| Raise (e : exn).
Arguments Ok {A} a.
Arguments Raise {A} e.

#[global] Instance result_ret : MRet result := fun A a => Ok a.
#[global] Instance result_bind : MBind result := fun A B k m =>
  match m with
  | Ok a => k a
  | Raise e => Raise e
  end.

(** ** Python built-ins used by the generator *)

(** Comparisons of floats, as decisions. *)
#[global] Instance Rlt_decision (x y : R) : Decision (x < y) := Rlt_dec x y.
#[global] Instance Rgt_decision (x y : R) : Decision (x > y) := Rgt_dec x y.
#[global] Instance Rle_decision (x y : R) : Decision (x <= y) := Rle_dec x y.
#[global] Instance Rge_decision (x y : R) : Decision (x >= y) := Rge_dec x y.
#[global] Instance Req_decision : EqDecision R := Req_dec_T.

(** [max(x, y)] and [min(x, y)] on floats are [Rmax] and [Rmin];
    [max(e for ...)] over a non-empty iterable folds [max] from its first
    element, and [min] likewise. *)
Definition py_max (x : R) (xs : list R) : R := fold_left Rmax xs x.
Definition py_min (x : R) (xs : list R) : R := fold_left Rmin xs x.

(** [round(x)] to the nearest integer, ties to the even one. *)
Definition round_half_even (x : R) : Z :=
  let n := Int_part x in
  let f := x - IZR n in
  if decide (f < 1 / 2) then n
  else if decide (1 / 2 < f) then (n + 1)%Z
  else if Z.even n then n else (n + 1)%Z.

(** [round(x, 2)]. *)
Definition py_round2 (x : R) : R := IZR (round_half_even (x * 100)) / 100.

(** [int(x)]: truncation towards zero. *)
Definition py_int (x : R) : Z :=
  if decide (0 <= x) then Int_part x else (- Int_part (- x))%Z.

(** The largest float, [sys.float_info.max]: [(2 - 2^-52) * 2^1023]. *)
Definition DBL_MAX : R := (2 - (/ 2) ^ 52) * 2 ^ 1023.

(** [x ** 2] on a float raises [OverflowError] when the square is out of
    range. *)
Definition float_pow2 (x : R) : result R :=
  if decide (x ^ 2 > DBL_MAX) then Raise OverflowError else Ok (x ^ 2).

(** [math.exp(x)] raises [OverflowError] when the result is out of range. *)
Definition math_exp (x : R) : result R :=
  if decide (exp x > DBL_MAX) then Raise OverflowError else Ok (exp x).

(** [random.uniform(a, b)] is [a + (b - a) * random()]; [u] is the variate
    [random()] returned. *)
Definition uniform (a b u : R) : R := a + (b - a) * u.

(** ** Configuration *)

Definition GARCH_OMEGA : R := 1e-7.
Definition GARCH_ALPHA : R := 0.06.
Definition GARCH_BETA : R := 0.88.
Definition GARCH_GAMMA : R := 0.06.

Definition REVERSION_RANGES : gmap string (R * R) :=
  {[ "s1" := (0.001, 0.02);
     "m1" := (0.002, 0.05);
     "m5" := (0.005, 0.07);
     "h1" := (0.01, 0.10);
     "d1" := (0.10, 0.10) ]}.

(** ** Data model *)

(** The attributes of a [SyntheticStream] instance. *)
Record SyntheticStream : Type := mkStream {
  p : R;
  d1_open : R;
  h1_open : R;
  m5_open : R;
  m1_open : R;
  reversion_strength : gmap string R;
  garch_variance : R;
  prev_return : R;
  boundary_trend : Z
}.

(** Attribute assignments [st.x = v]. *)
Definition set_p (st : SyntheticStream) (v : R) : SyntheticStream :=
  mkStream v (d1_open st) (h1_open st) (m5_open st) (m1_open st)
    (reversion_strength st) (garch_variance st) (prev_return st) (boundary_trend st).
Definition set_d1_open (st : SyntheticStream) (v : R) : SyntheticStream :=
  mkStream (p st) v (h1_open st) (m5_open st) (m1_open st)
    (reversion_strength st) (garch_variance st) (prev_return st) (boundary_trend st).
Definition set_h1_open (st : SyntheticStream) (v : R) : SyntheticStream :=
  mkStream (p st) (d1_open st) v (m5_open st) (m1_open st)
    (reversion_strength st) (garch_variance st) (prev_return st) (boundary_trend st).
Definition set_m5_open (st : SyntheticStream) (v : R) : SyntheticStream :=
  mkStream (p st) (d1_open st) (h1_open st) v (m1_open st)
    (reversion_strength st) (garch_variance st) (prev_return st) (boundary_trend st).
Definition set_m1_open (st : SyntheticStream) (v : R) : SyntheticStream :=
  mkStream (p st) (d1_open st) (h1_open st) (m5_open st) v
    (reversion_strength st) (garch_variance st) (prev_return st) (boundary_trend st).
Definition set_garch_variance (st : SyntheticStream) (v : R) : SyntheticStream :=
  mkStream (p st) (d1_open st) (h1_open st) (m5_open st) (m1_open st)
    (reversion_strength st) v (prev_return st) (boundary_trend st).
Definition set_prev_return (st : SyntheticStream) (v : R) : SyntheticStream :=
  mkStream (p st) (d1_open st) (h1_open st) (m5_open st) (m1_open st)
    (reversion_strength st) (garch_variance st) v (boundary_trend st).
Definition set_boundary_trend (st : SyntheticStream) (v : Z) : SyntheticStream :=
  mkStream (p st) (d1_open st) (h1_open st) (m5_open st) (m1_open st)
    (reversion_strength st) (garch_variance st) (prev_return st) v.

(** The five [random()] variates [__init__] consumes, in the order drawn. *)
Record InitDraws : Type := mkDraws {
  u_s1 : R; u_m1 : R; u_m5 : R; u_h1 : R; u_d1 : R
}.

(** [random.uniform( *REVERSION_RANGES[tf]) / 2.0] *)
Definition sample_strength (tf : string) (u : R) : result R :=
  match REVERSION_RANGES !! tf with
  | Some (a, b) => Ok (uniform a b u / 2.0)
  | None => Raise (KeyError tf)
  end.

Definition __init__ (initial_price : R) (u : InitDraws) : result SyntheticStream :=
  let p := initial_price in
  r_s1 ← sample_strength "s1" (u_s1 u);
  r_m1 ← sample_strength "m1" (u_m1 u);
  r_m5 ← sample_strength "m5" (u_m5 u);
  r_h1 ← sample_strength "h1" (u_h1 u);
  r_d1 ← sample_strength "d1" (u_d1 u);
  Ok {| p := p;
        d1_open := p; h1_open := p; m5_open := p; m1_open := p;
        reversion_strength :=
          {[ "s1" := r_s1; "m1" := r_m1; "m5" := r_m5; "h1" := r_h1; "d1" := r_d1 ]};
        garch_variance := 1e-5;
        prev_return := 0.0;
        boundary_trend := 0 |}.

(** *** Snapshots: [to_dict] and [from_dict] *)

(** The values an instance's [__dict__] holds. *)
Inductive pyval : Type :=
| PyFloat (x : R)
| PyInt (n : Z)
| PyDict (d : gmap string R).

(** [to_dict] returns [self.__dict__]: the attributes by name.  It is the
    instance's own dict, not a copy; [main_loop] dumps it at once, and
    [update] copies its entries into the restored instance, which then shares
    only the [reversion_strength] dict, into which no tick writes.  So the
    snapshot is taken as a value. *)
Definition to_dict (st : SyntheticStream) : gmap string pyval :=
  {[ "p" := PyFloat (p st);
     "d1_open" := PyFloat (d1_open st);
     "h1_open" := PyFloat (h1_open st);
     "m5_open" := PyFloat (m5_open st);
     "m1_open" := PyFloat (m1_open st);
     "reversion_strength" := PyDict (reversion_strength st);
     "garch_variance" := PyFloat (garch_variance st);
     "prev_return" := PyFloat (prev_return st);
     "boundary_trend" := PyInt (boundary_trend st) ]}.

Definition get_float (d : gmap string pyval) (k : string) : option R :=
  match d !! k with Some (PyFloat x) => Some x | _ => None end.
Definition get_int (d : gmap string pyval) (k : string) : option Z :=
  match d !! k with Some (PyInt n) => Some n | _ => None end.
Definition get_dict (d : gmap string pyval) (k : string) : option (gmap string R) :=
  match d !! k with Some (PyDict m) => Some m | _ => None end.

(** An instance whose [__dict__] is [d], when [d] holds every attribute
    with a value of its kind; [None] otherwise (such an object is no stream
    the generator can tick). *)
Definition of_dict (d : gmap string pyval) : option SyntheticStream :=
  v_p ← get_float d "p";
  v_d1 ← get_float d "d1_open";
  v_h1 ← get_float d "h1_open";
  v_m5 ← get_float d "m5_open";
  v_m1 ← get_float d "m1_open";
  v_rs ← get_dict d "reversion_strength";
  v_gv ← get_float d "garch_variance";
  v_pr ← get_float d "prev_return";
  v_bt ← get_int d "boundary_trend";
  Some (mkStream v_p v_d1 v_h1 v_m5 v_m1 v_rs v_gv v_pr v_bt).

(** [from_dict]: [instance = cls()] builds a fresh stream (initial price
    100.0, five variates drawn), then [instance.__dict__.update(data)]
    overwrites every attribute [data] names. *)
Definition from_dict (u : InitDraws) (data : gmap string pyval) : option SyntheticStream :=
  match __init__ 100.0 u with
  | Ok instance => of_dict (data ∪ to_dict instance)
  | Raise _ => None
  end.

(** ** Seasonality *)

Definition _u_seasonality (minute_of_day : Z) : R :=
  let x := 2.0 * PI * (IZR minute_of_day / 1440.0) in
  0.75 + 0.5 * (cos x) ^ 2.

(** ** GJR-GARCH volatility *)

(** [math.sqrt] raises [ValueError] on a negative argument. *)
Definition math_sqrt (x : R) : result R :=
  if decide (x < 0) then Raise ValueError else Ok (sqrt x).

Definition _get_garch_volatility (prev_return prev_variance : R) : result (R * R) :=
  sq ← (if decide (prev_return < 0) then float_pow2 prev_return else Ok 0.0);
  let leverage_effect := GARCH_GAMMA * sq in
  sq' ← float_pow2 prev_return;
  let new_variance :=
    GARCH_OMEGA
    + GARCH_ALPHA * sq'
    + leverage_effect
    + GARCH_BETA * prev_variance in
  s ← math_sqrt new_variance;
  Ok (Rmax 1e-9 s, new_variance).

(** ** One tick *)

(** The wall-clock fields [_generate_one_second] reads from [now_dt], and
    the value of [now_dt.timestamp()]. *)
Record datetime : Type := mkDatetime {
  hour : Z;
  minute : Z;
  second : Z;
  timestamp : R
}.

(** The bar a tick returns: the dict with keys "t", "o", "h", "l", "c". *)
Record Bar : Type := mkBar {
  bar_t : Z;
  bar_o : R;
  bar_h : R;
  bar_l : R;
  bar_c : R
}.

Definition make_bar (now_dt : datetime) (o c : R) : Bar :=
  {| bar_t := py_int (timestamp now_dt * 1000);
     bar_o := py_round2 o;
     bar_h := py_round2 (Rmax o c);
     bar_l := py_round2 (Rmin o c);
     bar_c := py_round2 c |}.

(** Step 1: the time-based anchors. *)
Definition update_anchors (st : SyntheticStream) (now_dt : datetime) : SyntheticStream :=
  if (second now_dt =? 0)%Z then
    let st := set_m1_open st (p st) in
    let st := if (minute now_dt mod 5 =? 0)%Z then set_m5_open st (p st) else st in
    let st := if (minute now_dt =? 0)%Z then set_h1_open st (p st) else st in
    let st := if ((hour now_dt =? 0) && (minute now_dt =? 0))%Z
              then set_d1_open st (p st) else st in
    st
  else st.

(** Step 3: one band, [(anchor * (1 - r), anchor * (1 + r))] with
    [r = st.reversion_strength[tf]]. *)
Definition band (st : SyntheticStream) (tf : string) (anchor : R) : result (R * R) :=
  match reversion_strength st !! tf with
  | Some r => Ok (anchor * (1 - r), anchor * (1 + r))
  | None => Raise (KeyError tf)
  end.

(** The five bands, in the order the dict literal evaluates them. *)
Definition bands (st : SyntheticStream) : result (list (string * (R * R))) :=
  let s1_open := p st in
  b_s1 ← band st "s1" s1_open;
  b_m1 ← band st "m1" (m1_open st);
  b_m5 ← band st "m5" (m5_open st);
  b_h1 ← band st "h1" (h1_open st);
  b_d1 ← band st "d1" (d1_open st);
  Ok [("s1", b_s1); ("m1", b_m1); ("m5", b_m5); ("h1", b_h1); ("d1", b_d1)].

(** The final boundary [(lower_bound, upper_bound)]: the largest lower edge
    and the smallest upper edge of the bands. *)
Definition effective_boundary (st : SyntheticStream) : result (R * R) :=
  bs ← bands st;
  match bs.*2 with
  | b :: rest => Ok (py_max (fst b) (map fst rest), py_min (snd b) (map snd rest))
  | [] => Raise ValueError (* max() of an empty sequence *)
  end.

(** Step 4: the candidate close [o * math.exp(total_return)]; [z] is the
    value [random.gauss(0, 1)] returned. *)
Definition candidate_close (o : R) (trend : Z) (seasonal_vol z : R) : result R :=
  let base_return := z * seasonal_vol in
  let boundary_drift := IZR trend * seasonal_vol * 0.1 in
  let total_return := base_return + boundary_drift in
  e ← math_exp total_return;
  Ok (o * e).

(** Step 5: clamp the close and update the trend; returns the pair
    [(c, st.boundary_trend)] as the branch leaves them. *)
Definition enforce_boundaries (c lower_bound upper_bound : R) (trend : Z) : R * Z :=
  if decide (c >= upper_bound) then (upper_bound, (-1)%Z)
  else if decide (c <= lower_bound) then (lower_bound, 1%Z)
  else if negb (trend =? 0)%Z then
    let channel_mid := (upper_bound + lower_bound) / 2 in
    if ((trend =? -1)%Z && bool_decide (c < channel_mid))
       || ((trend =? 1)%Z && bool_decide (c > channel_mid))
    then (c, 0%Z)
    else (c, trend)
  else (c, trend).

(** [math.log(c / o) if o != 0 else 0]; [math.log] raises [ValueError]
    unless its argument is positive. *)
Definition log_return (c o : R) : result R :=
  if decide (o = 0) then Ok 0
  else if decide (0 < c / o) then Ok (ln (c / o))
  else Raise ValueError.

Definition minute_of_day (now_dt : datetime) : Z :=
  (hour now_dt * 60 + minute now_dt)%Z.

Definition _generate_one_second (st : SyntheticStream) (now_dt : datetime) (z : R)
  : SyntheticStream * result Bar :=
  let minute_of_day := minute_of_day now_dt in
  (* 1. Update Time-Based Anchors *)
  let st := update_anchors st now_dt in
  (* 2. Calculate Volatility for this Second *)
  match _get_garch_volatility (prev_return st) (garch_variance st) with
  | Raise e => (st, Raise e)
  | Ok (sigma, new_variance) =>
    let st := set_garch_variance st new_variance in
    let seasonal_vol := sigma * _u_seasonality minute_of_day in
    (* 3. Define the Price Boundaries *)
    match effective_boundary st with
    | Raise e => (st, Raise e)
    | Ok (lower_bound, upper_bound) =>
      (* 4. Generate Random Shock and Apply Boundary Force *)
      let o := p st in
      match candidate_close o (boundary_trend st) seasonal_vol z with
      | Raise e => (st, Raise e)
      | Ok c =>
        (* 5. Enforce Strict Boundaries and Update Trend *)
        let '(c, trend) :=
          enforce_boundaries c lower_bound upper_bound (boundary_trend st) in
        let st := set_boundary_trend st trend in
        let st := set_p st c in
        match log_return c o with
        | Raise e => (st, Raise e)
        | Ok r => (set_prev_return st r, Ok (make_bar now_dt o c))
        end
      end
    end
  end.

(** ** The loop of one stream *)

(** [main_loop] restricted to one stream: one tick per clock reading and
    normal variate, the bars appended to the history; an exception ends the
    loop.  Returns the bars, the final state and the exception, if any. *)
Fixpoint run (st : SyntheticStream) (ticks : list (datetime * R))
  : list Bar * SyntheticStream * option exn :=
  match ticks with
  | [] => ([], st, None)
  | (now, z) :: rest =>
    match _generate_one_second st now z with
    | (st', Ok new_bar) =>
      let '(history, st_end, e) := run st' rest in
      (new_bar :: history, st_end, e)
    | (st', Raise e) => ([], st', Some e)
    end
  end.

(** ** The main loop *)

Definition SYMBOLS : list string := ["AAPL"; "GOOG"; "AMZN"; "MSFT"; "NVDA"].

(** The bars kept per symbol: [3 * 24 * 60 * 60]. *)
Definition HISTORY_LIMIT : Z := 3 * 24 * 60 * 60.

(** [history[symbol].append(new_bar)], then [pop(0)] when the list has
    grown past the limit. *)
Definition append_bar (bars : list Bar) (new_bar : Bar) : list Bar :=
  let bars := bars ++ [new_bar] in
  if decide (Z.of_nat (length bars) > HISTORY_LIMIT)%Z then tail bars else bars.

(** [states] is a dict iterated in insertion order: a list of pairs whose
    symbols are distinct.  [states[k]] finds the stream of symbol [k]. *)
Fixpoint stream_of (k : string) (states : list (string * SyntheticStream))
  : option SyntheticStream :=
  match states with
  | [] => None
  | (symbol, stream) :: rest => if decide (symbol = k) then Some stream else stream_of k rest
  end.

(** The [for symbol, stream in states.items()] loop of one second: each
    stream is ticked with its own normal variate [z_of symbol], its bar
    appended to the history of its symbol (created empty when missing) and the
    history trimmed.  A tick that raises ends the loop, and the program: the
    streams and histories are returned as they then stand, with the
    exception. *)
Fixpoint generate_all (states : list (string * SyntheticStream))
    (history : gmap string (list Bar)) (now : datetime) (z_of : string -> R)
  : list (string * SyntheticStream) * gmap string (list Bar) * option exn :=
  match states with
  | [] => ([], history, None)
  | (symbol, stream) :: rest =>
    match _generate_one_second stream now (z_of symbol) with
    | (stream', Raise e) => ((symbol, stream') :: rest, history, Some e)
    | (stream', Ok new_bar) =>
      let bars := default [] (history !! symbol) in
      let history := <[symbol := append_bar bars new_bar]> history in
      let '(rest', history', e) := generate_all rest history now z_of in
      ((symbol, stream') :: rest', history', e)
    end
  end.

(** The variables of [main_loop]. *)
Record Loop : Type := mkLoop {
  states : list (string * SyntheticStream);
  history : gmap string (list Bar);
  last_save_minute : Z
}.

(** What one save writes: [{s: v.to_dict() for s, v in states.items()}] to
    the state file and [history] to the history file. *)
Definition snapshot_of (states : list (string * SyntheticStream))
  : list (string * gmap string pyval) :=
  (fun sv => (sv.1, to_dict sv.2)) <$> states.

Definition Saved : Type := list (string * gmap string pyval) * gmap string (list Bar).

(** One turn of the [while True] loop at the clock reading [now]: the
    streams are ticked; when the minute differs from the last saved one it is
    recorded, [states['AAPL']] is read for the log line, and the files are
    written.  The files and the git commands are the outside world: the turn
    returns what it saves, and a failing git command is caught by the loop. *)
Definition loop_turn (l : Loop) (now : datetime) (z_of : string -> R)
  : Loop * option Saved * option exn :=
  match generate_all (states l) (history l) now z_of with
  | (states', history', Some e) =>
      (mkLoop states' history' (last_save_minute l), None, Some e)
  | (states', history', None) =>
      if decide (minute now <> last_save_minute l) then
        let l' := mkLoop states' history' (minute now) in
        match stream_of "AAPL" states' with
        | None => (l', None, Some (KeyError "AAPL"))
        | Some _ => (l', Some (snapshot_of states', history'), None)
        end
      else (mkLoop states' history' (last_save_minute l), None, None)
  end.

(** The loop over a sequence of clock readings, each with the variates of
    its second; returns the final variables, the saves in order, and the
    exception that ended the loop, if any. *)
Fixpoint main_run (l : Loop) (ticks : list (datetime * (string -> R)))
  : Loop * list Saved * option exn :=
  match ticks with
  | [] => (l, [], None)
  | (now, z_of) :: rest =>
    match loop_turn l now z_of with
    | (l', _, Some e) => (l', [], Some e)
    | (l', saved, None) =>
      let '(l_end, saves, e) := main_run l' rest in
      (l_end, option_list saved ++ saves, e)
    end
  end.

(** The start of [main_loop] without a state file:
    [{s: SyntheticStream(random.uniform(50, 200)) for s in SYMBOLS}];
    [draws s] holds the variate of the price and the five of the
    constructor, for symbol [s]. *)
Definition new_states (draws : string -> R * InitDraws)
  : result (list (string * SyntheticStream)) :=
  mapM (fun s => stream ← __init__ (uniform 50 200 (draws s).1) (draws s).2;
                 mret (s, stream)) SYMBOLS.

(** The start with a state file:
    [{s: SyntheticStream.from_dict(d) for s, d in json.load(f).items()}]. *)
Definition restore_states (draws : string -> InitDraws)
    (data : list (string * gmap string pyval))
  : option (list (string * SyntheticStream)) :=
  mapM (fun sd => stream ← from_dict (draws sd.1) sd.2; Some (sd.1, stream)) data.

(** [{s: [] for s in SYMBOLS}] *)
Definition new_history : gmap string (list Bar) :=
  list_to_map ((fun s => (s, [])) <$> SYMBOLS).

(** ** Vocabulary of the properties *)

(** The value of [new_variance] in [_get_garch_volatility]. *)
Definition garch_recursion (prev_return prev_variance : R) : R :=
  GARCH_OMEGA
  + GARCH_ALPHA * prev_return ^ 2
  + GARCH_GAMMA * (if decide (prev_return < 0) then prev_return ^ 2 else 0.0)
  + GARCH_BETA * prev_variance.

(** The angle [x] of [_u_seasonality]. *)
Definition day_angle (minute_of_day : Z) : R :=
  2.0 * PI * (IZR minute_of_day / 1440.0).

(** The effective boundary of a tick: the one step 3 computes, from the
    anchors as step 1 leaves them. *)
Definition tick_boundary (st : SyntheticStream) (now_dt : datetime) : result (R * R) :=
  effective_boundary (update_anchors st now_dt).

(** The effective boundary of the state entering the tick, from the anchors
    as they stand before step 1. *)
Definition boundary_before_update (st : SyntheticStream) : result (R * R) :=
  effective_boundary st.

(** The sigma of a tick: the first component step 2 receives. *)
Definition tick_sigma (st : SyntheticStream) : result R :=
  '(sigma, _) ← _get_garch_volatility (prev_return st) (garch_variance st);
  Ok sigma.

(** The candidate close of a tick: the value of [c] when step 5 starts. *)
Definition tick_candidate (st : SyntheticStream) (now_dt : datetime) (z : R) : result R :=
  sigma ← tick_sigma st;
  candidate_close (p st) (boundary_trend st)
    (sigma * _u_seasonality (minute_of_day now_dt)) z.

(** The value of [total_return] in step 4. *)
Definition total_return (trend : Z) (seasonal_vol z : R) : R :=
  z * seasonal_vol + IZR trend * seasonal_vol * 0.1.

(** The exponent of a tick: its [total_return], with the sigma step 2
    returns. *)
Definition tick_exponent (st : SyntheticStream) (now_dt : datetime) (z : R) : R :=
  total_return (boundary_trend st)
    (Rmax 1e-9 (sqrt (garch_recursion (prev_return st) (garch_variance st)))
     * _u_seasonality (minute_of_day now_dt)) z.

(** The floats of a tick stay in range: neither [prev_return ** 2] nor
    [math.exp(total_return)] overflows. *)
Definition tick_in_range (st : SyntheticStream) (now_dt : datetime) (z : R) : Prop :=
  prev_return st ^ 2 <= DBL_MAX /\ exp (tick_exponent st now_dt z) <= DBL_MAX.

(** Two states hold the same anchors and reversion strengths. *)
Record same_anchors (a b : SyntheticStream) : Prop := {
  same_d1 : d1_open a = d1_open b;
  same_h1 : h1_open a = h1_open b;
  same_m5 : m5_open a = m5_open b;
  same_m1 : m1_open a = m1_open b;
  same_rs : reversion_strength a = reversion_strength b
}.

(** The states the generator is meant to run on: positive price and
    anchors, the five reversion strengths strictly between 0 and 1, and a
    variance that is not negative. *)
Definition timeframes : list string := ["s1"; "m1"; "m5"; "h1"; "d1"].

Record well_formed (st : SyntheticStream) : Prop := {
  wf_p : 0 < p st;
  wf_d1 : 0 < d1_open st;
  wf_h1 : 0 < h1_open st;
  wf_m5 : 0 < m5_open st;
  wf_m1 : 0 < m1_open st;
  wf_rs : Forall (fun tf => exists r, reversion_strength st !! tf = Some r /\ 0 < r < 1)
            timeframes;
  wf_gv : 0 <= garch_variance st
}.

(** The price lies within the band of an anchor of strength [r]. *)
Definition in_band (anchor r price : R) : Prop :=
  anchor * (1 - r) <= price <= anchor * (1 + r).

(** The price lies within the band of each of the four stored anchors, as
    it does in a fresh stream, whose anchors are the price. *)
Record within_bands (st : SyntheticStream) : Prop := {
  wb_m1 : forall r, reversion_strength st !! "m1" = Some r -> in_band (m1_open st) r (p st);
  wb_m5 : forall r, reversion_strength st !! "m5" = Some r -> in_band (m5_open st) r (p st);
  wb_h1 : forall r, reversion_strength st !! "h1" = Some r -> in_band (h1_open st) r (p st);
  wb_d1 : forall r, reversion_strength st !! "d1" = Some r -> in_band (d1_open st) r (p st)
}.

(** The stream of a pair after its tick of the second, and what the tick
    returned. *)
Definition ticked (now : datetime) (z_of : string -> R) (sv : string * SyntheticStream)
  : string * SyntheticStream :=
  (sv.1, (_generate_one_second sv.2 now (z_of sv.1)).1).

Definition returns_bar (now : datetime) (z_of : string -> R)
    (sv : string * SyntheticStream) : Prop :=
  exists bar, (_generate_one_second sv.2 now (z_of sv.1)).2 = Ok bar.

(** A stream whose price has fallen to zero: anchors not negative,
    strengths and variance as in a well-formed state. *)
Record zero_priced (st : SyntheticStream) : Prop := {
  zp_p : p st = 0;
  zp_d1 : 0 <= d1_open st;
  zp_h1 : 0 <= h1_open st;
  zp_m5 : 0 <= m5_open st;
  zp_m1 : 0 <= m1_open st;
  zp_rs : Forall (fun tf => exists r, reversion_strength st !! tf = Some r /\ 0 < r < 1)
            timeframes;
  zp_gv : 0 <= garch_variance st
}.

(** The clock readings and variates of one stream, out of those of the
    loop. *)
Definition stream_ticks (k : string) (ticks : list (datetime * (string -> R)))
  : list (datetime * R) :=
  (fun t => (t.1, t.2 k)) <$> ticks.

(** The largest size of the log return of a tick whose close stays within
    the fraction [r] of its open, and the level under which the variance then
    stays: [(omega + (alpha + gamma) * bound^2) / (1 - beta)]. *)
Definition return_bound (r : R) : R := r / (1 - r).

Definition variance_cap (r : R) : R :=
  (GARCH_OMEGA + (GARCH_ALPHA + GARCH_GAMMA) * return_bound r ^ 2) / (1 - GARCH_BETA).

(** The three values of the boundary trend. *)
Definition trend_in_range (t : Z) : Prop := t = (-1)%Z \/ t = 0%Z \/ t = 1%Z.

(** A stream in regular operation: well-formed, the price within its
    bands, the one-second strength [r], the last return within its bound, the
    variance at most [M] and the trend one of its three values. *)
Record calm (r M : R) (st : SyntheticStream) : Prop := {
  calm_wf : well_formed st;
  calm_wb : within_bands st;
  calm_s1 : reversion_strength st !! "s1" = Some r;
  calm_return : - return_bound r <= prev_return st <= return_bound r;
  calm_variance : garch_variance st <= M;
  calm_trend : trend_in_range (boundary_trend st)
}.

(** With a sigma of at most [sqrt M], a seasonality factor of at most 1.25,
    a trend of at most 1 and a normal variate of at most [B], the exponent of a
    tick is at most [1.25 * sqrt M * (B + 0.1)]; [math.exp] is in range up to
    709. *)
Definition exponent_in_range (M B : R) : Prop := 1.25 * sqrt M * (B + 0.1) <= 709.

(** A stream in regular operation below the variance level [M]: calm for
    its one-second strength, whose cap [M] is at or above. *)
Definition steady (M : R) (st : SyntheticStream) : Prop :=
  exists r, variance_cap r <= M /\ calm r M st.

(** The normal variates of a run, and of the turns of the loop, are at
    most [B]. *)
Definition variates_below (B : R) (ticks : list (datetime * R)) : Prop :=
  Forall (fun t => t.2 <= B) ticks.

Definition all_variates_below (B : R) (ticks : list (datetime * (string -> R))) : Prop :=
  Forall (fun t => forall s, t.2 s <= B) ticks.

(** The five variates are values of [random()], in [[0, 1)]. *)
Definition unit_draws (u : InitDraws) : Prop :=
  Forall (fun x => 0 <= x < 1) [u_s1 u; u_m1 u; u_m5 u; u_h1 u; u_d1 u].

(** The variates of the price and of the constructor are values of
    [random()], for every symbol. *)
Definition unit_draws_all (draws : string -> R * InitDraws) : Prop :=
  forall s, 0 <= (draws s).1 < 1 /\ unit_draws (draws s).2.

(** The volatility as the specification words it: the floor of 1e-9 on the
    variance, inside the square root, and the variance returned unfloored.
    (Compared below with [_get_garch_volatility], which floors sigma.) *)
Definition nextVolatility_spec (prevReturn prevVariance : R) : R * R :=
  let leverage := if decide (prevReturn < 0) then GARCH_GAMMA * prevReturn ^ 2 else 0 in
  let newVariance :=
    GARCH_OMEGA + GARCH_ALPHA * prevReturn ^ 2 + leverage + GARCH_BETA * prevVariance in
  (sqrt (Rmax 1e-9 newVariance), newVariance).

(** The boundary enforcer as the specification words it.  The close has
    crossed the channel midpoint against the trend when the trend is
    downward (-1) and the close is below the midpoint, or the trend is upward
    (+1) and the close is above it. *)
Definition crossed_midpoint (t : Z) (c lower upper : R) : Prop :=
  let mid := (upper + lower) / 2 in
  (t = (-1)%Z /\ c < mid) \/ (t = 1%Z /\ c > mid).

(** [enforcer_rule c lower upper t close t']: on the candidate [c] and the
    trend [t] the rule emits [close] and moves the trend to [t']. *)
Inductive enforcer_rule (c lower upper : R) (t : Z) : R -> Z -> Prop :=
| rule_upper :
    c >= upper -> enforcer_rule c lower upper t upper (-1)
| rule_lower :
    ~ c >= upper -> c <= lower -> enforcer_rule c lower upper t lower 1
| rule_ease :
    ~ c >= upper -> ~ c <= lower -> t <> 0%Z -> crossed_midpoint t c lower upper ->
    enforcer_rule c lower upper t c 0
| rule_keep :
    ~ c >= upper -> ~ c <= lower -> ~ (t <> 0%Z /\ crossed_midpoint t c lower upper) ->
    enforcer_rule c lower upper t c t.

(** ** Example states *)

(** A fresh stream at price 100.0 with the reversion strengths of the
    specification's concrete scenario. *)
Definition scenario_strengths : gmap string R :=
  {[ "s1" := 0.01; "m1" := 0.025; "m5" := 0.035; "h1" := 0.05; "d1" := 0.05 ]}.

Definition scenario_stream : SyntheticStream :=
  {| p := 100; d1_open := 100; h1_open := 100; m5_open := 100; m1_open := 100;
     reversion_strength := scenario_strengths;
     garch_variance := 1e-5; prev_return := 0; boundary_trend := 0 |}.

(** 00:00:00, 12:00:30 and 12:01:00 of the first day of the epoch. *)
Definition midnight : datetime :=
  {| hour := 0; minute := 0; second := 0; timestamp := 0 |}.
Definition noon_30s : datetime :=
  {| hour := 12; minute := 0; second := 30; timestamp := 43230 |}.
Definition noon_1min : datetime :=
  {| hour := 12; minute := 1; second := 0; timestamp := 43260 |}.

(** A stream whose minute anchor has drifted far above the price: the
    minute band lies wholly above the one-second band. *)
Definition inverted_stream : SyntheticStream :=
  {| p := 100; d1_open := 100; h1_open := 100; m5_open := 100; m1_open := 200;
     reversion_strength := scenario_strengths;
     garch_variance := 1e-5; prev_return := 0; boundary_trend := 0 |}.

(** A stream in mid-run: the price was clamped at the upper edge of the
    minute band (anchor 100, strength 0.025), so the trend is -1. *)
Definition clamped_stream : SyntheticStream :=
  {| p := 102.5; d1_open := 100; h1_open := 100; m5_open := 100; m1_open := 100;
     reversion_strength := scenario_strengths;
     garch_variance := 1e-5; prev_return := 0.001; boundary_trend := -1 |}.

(** A stream whose variance is negative, as a state file edited by hand may
    hold, and one whose strengths lack the timeframes after "m1". *)
Definition negative_variance_stream : SyntheticStream :=
  {| p := 100; d1_open := 100; h1_open := 100; m5_open := 100; m1_open := 100;
     reversion_strength := scenario_strengths;
     garch_variance := -1; prev_return := 0; boundary_trend := 0 |}.

Definition short_strengths_stream : SyntheticStream :=
  {| p := 100; d1_open := 100; h1_open := 100; m5_open := 100; m1_open := 100;
     reversion_strength := {[ "s1" := 0.01; "m1" := 0.025 ]};
     garch_variance := 1e-5; prev_return := 0; boundary_trend := 0 |}.

(** Two more states a state file edited by hand may hold: a last return
    whose square is beyond the largest float, and a variance so large that the
    exponent of a tick is beyond the range of [math.exp]. *)
Definition overflow_stream : SyntheticStream :=
  {| p := 100; d1_open := 100; h1_open := 100; m5_open := 100; m1_open := 100;
     reversion_strength := scenario_strengths;
     garch_variance := 0; prev_return := 1e200; boundary_trend := 0 |}.

Definition hot_stream : SyntheticStream :=
  {| p := 100; d1_open := 100; h1_open := 100; m5_open := 100; m1_open := 100;
     reversion_strength := scenario_strengths;
     garch_variance := 1e6; prev_return := 0; boundary_trend := 0 |}.

Definition zero_stream : SyntheticStream :=
  {| p := 0; d1_open := 100; h1_open := 100; m5_open := 100; m1_open := 100;
     reversion_strength := scenario_strengths;
     garch_variance := 1e-5; prev_return := 0; boundary_trend := 0 |}.

(** * Properties *)

(** ** Seasonality *)

Section Seasonality.

Lemma seasonality_formula (m : Z) :
  _u_seasonality m = 0.75 + 0.5 * (cos (2 * PI * IZR m / 1440)) ^ 2.
Proof.
  unfold _u_seasonality. do 2 f_equal. f_equal. f_equal. lra.
Qed.

Lemma seasonality_bounds (m : Z) : 0.75 <= _u_seasonality m <= 1.25.
Proof.
  unfold _u_seasonality.
  pose proof (COS_bound (2.0 * PI * (IZR m / 1440.0))) as [Hlo Hhi].
  split; nra.
Qed.

Lemma seasonality_at_angle (m : Z) (a : R) :
  day_angle m = a -> _u_seasonality m = 0.75 + 0.5 * (cos a) ^ 2.
Proof. intros <-. reflexivity. Qed.

Lemma seasonality_0 : _u_seasonality 0 = 1.25.
Proof.
  rewrite (seasonality_at_angle 0 0) by (unfold day_angle; lra).
  rewrite cos_0. lra.
Qed.

Lemma seasonality_360 : _u_seasonality 360 = 0.75.
Proof.
  rewrite (seasonality_at_angle 360 (PI / 2)) by (unfold day_angle; lra).
  rewrite cos_PI2. lra.
Qed.

Lemma seasonality_720 : _u_seasonality 720 = 1.25.
Proof.
  rewrite (seasonality_at_angle 720 PI) by (unfold day_angle; lra).
  rewrite cos_PI. lra.
Qed.

Lemma seasonality_1080 : _u_seasonality 1080 = 0.75.
Proof.
  rewrite (seasonality_at_angle 1080 (3 * (PI / 2))) by (unfold day_angle; lra).
  rewrite cos_3PI2. lra.
Qed.

Lemma seasonality_half_day (m : Z) : _u_seasonality (m + 720) = _u_seasonality m.
Proof.
  rewrite (seasonality_at_angle (m + 720) (day_angle m + PI)).
  - rewrite neg_cos. unfold _u_seasonality, day_angle. lra.
  - unfold day_angle. rewrite plus_IZR. lra.
Qed.

Lemma seasonality_1439_below_max : _u_seasonality 1439 < 1.25.
Proof.
  unfold _u_seasonality.
  set (x := 2.0 * PI * (IZR 1439 / 1440.0)).
  assert (Hs : sin x < 0).
  { pose proof PI_RGT_0. apply sin_lt_0; unfold x; lra. }
  pose proof (sin2_cos2 x) as H. unfold Rsqr in H. nra.
Qed.

End Seasonality.

(** ** The range of floats *)

Lemma exp_pow (n : nat) (x : R) : exp x ^ n = exp (IZR (Z.of_nat n) * x).
Proof.
  rewrite <- INR_IZR_INZ. induction n as [|n IH].
  - simpl. rewrite Rmult_0_l. symmetry. apply exp_0.
  - rewrite S_INR, Rmult_plus_distr_r, Rmult_1_l, exp_plus, <- IH. simpl. ring.
Qed.

Lemma pow_frac (a b : Z) (n : nat) :
  (IZR a / IZR b) ^ n = IZR (a ^ Z.of_nat n) / IZR (b ^ Z.of_nat n).
Proof.
  rewrite <- !pow_IZR. unfold Rdiv. rewrite Rpow_mult_distr, pow_inv. reflexivity.
Qed.

(** Fractions of integers are compared by cross multiplication. *)
Lemma frac_le (a b c d : Z) :
  (0 <? b)%Z = true -> (0 <? d)%Z = true -> (a * d <=? c * b)%Z = true ->
  IZR a / IZR b <= IZR c / IZR d.
Proof.
  intros Hb%Z.ltb_lt Hd%Z.ltb_lt H%Z.leb_le.
  apply IZR_lt in Hb, Hd. apply IZR_le in H. rewrite !mult_IZR in H.
  apply (Rmult_le_reg_r (IZR b * IZR d)); [nra|].
  replace (IZR a / IZR b * (IZR b * IZR d)) with (IZR a * IZR d) by (field; lra).
  replace (IZR c / IZR d * (IZR b * IZR d)) with (IZR c * IZR b) by (field; lra).
  exact H.
Qed.

Lemma exp_small_upper : exp (/ 1000) <= 1000 / 999.
Proof.
  pose proof (exp_ineq1_le (- / 1000)) as H1.
  pose proof (exp_pos (/ 1000)) as Hp.
  assert (E : exp (- / 1000) * exp (/ 1000) = 1).
  { rewrite <- exp_plus. replace (- / 1000 + / 1000) with 0 by lra. apply exp_0. }
  assert (0.999 <= exp (- / 1000)) by lra.
  apply (Rmult_le_reg_l 0.999); [lra|]. nra.
Qed.

(** [e <= 2.72], from [e = exp(1/1000)^1000 <= (1000/999)^1000]. *)
Lemma exp_1_upper : exp 1 <= 272 / 100.
Proof.
  replace 1 with (IZR (Z.of_nat 1000) * / 1000)
    by (change (Z.of_nat 1000) with 1000%Z; lra).
  rewrite <- exp_pow.
  apply Rle_trans with ((1000 / 999) ^ 1000).
  - apply pow_incr. split; [left; apply exp_pos | apply exp_small_upper].
  - rewrite (pow_frac 1000 999 1000). apply frac_le; vm_compute; reflexivity.
Qed.

Lemma DBL_MAX_value :
  DBL_MAX = IZR ((2 ^ Z.of_nat 53 - 1) * 2 ^ Z.of_nat 971) / IZR 1.
Proof.
  unfold DBL_MAX. rewrite mult_IZR, minus_IZR, <- !pow_IZR.
  replace (2 ^ 1023) with (2 ^ 52 * 2 ^ 971) by (rewrite <- pow_add; reflexivity).
  rewrite pow_inv.
  assert (H : 2 ^ 52 <> 0) by (apply pow_nonzero; lra).
  replace (2 ^ 53) with (2 * 2 ^ 52) by reflexivity.
  field.
Qed.

Lemma DBL_MAX_bounds : 2 ^ 1023 <= DBL_MAX < 2 ^ 1024.
Proof.
  unfold DBL_MAX.
  assert (Hp : 0 < 2 ^ 1023) by (apply pow_lt; lra).
  assert (Hq : 0 < (/ 2) ^ 52 <= 1).
  { split; [apply pow_lt; lra|]. rewrite <- (pow1 52). apply pow_incr. lra. }
  change (2 ^ 1024) with (2 * 2 ^ 1023). split; nra.
Qed.

Lemma DBL_MAX_large : 1e300 <= DBL_MAX.
Proof.
  apply Rle_trans with (2 ^ 1023); [|apply DBL_MAX_bounds].
  replace 1e300 with (IZR (10 ^ Z.of_nat 300) / IZR 1)
    by (rewrite <- pow_IZR; lra).
  replace (2 ^ 1023) with (IZR (2 ^ Z.of_nat 1023) / IZR 1)
    by (rewrite <- pow_IZR; lra).
  apply frac_le; vm_compute; reflexivity.
Qed.

(** [math.exp] is in range up to 709: [e^709 <= 2.72^709 <= DBL_MAX]. *)
Lemma exp_709_in_range : exp 709 <= DBL_MAX.
Proof.
  replace 709 with (IZR (Z.of_nat 709) * 1)
    by (change (Z.of_nat 709) with 709%Z; lra).
  rewrite <- exp_pow.
  apply Rle_trans with ((272 / 100) ^ 709).
  - apply pow_incr. split; [left; apply exp_pos | apply exp_1_upper].
  - rewrite (pow_frac 272 100 709), DBL_MAX_value.
    apply frac_le; vm_compute; reflexivity.
Qed.

Lemma exp_in_range (x : R) : x <= 709 -> exp x <= DBL_MAX.
Proof.
  intros [Hx | ->]; [|apply exp_709_in_range].
  left. eapply Rlt_le_trans; [apply exp_increasing, Hx | apply exp_709_in_range].
Qed.

(** From 1024 on it overflows: [e^x >= 2^1024 > DBL_MAX]. *)
Lemma exp_overflows (x : R) : 1024 <= x -> DBL_MAX < exp x.
Proof.
  intros Hx. apply Rlt_le_trans with (2 ^ 1024); [apply DBL_MAX_bounds|].
  apply Rle_trans with (exp 1 ^ 1024).
  - apply pow_incr. pose proof (exp_ineq1_le 1). lra.
  - rewrite exp_pow. change (Z.of_nat 1024) with 1024%Z. rewrite Rmult_1_r.
    destruct Hx as [Hx | <-]; [left; now apply exp_increasing | right; reflexivity].
Qed.

Lemma math_exp_in_range (x : R) : exp x <= DBL_MAX -> math_exp x = Ok (exp x).
Proof. intros H. unfold math_exp. case_decide; [lra | reflexivity]. Qed.

Lemma math_exp_overflow (x : R) : DBL_MAX < exp x -> math_exp x = Raise OverflowError.
Proof. intros H. unfold math_exp. case_decide; [reflexivity | lra]. Qed.

Lemma float_pow2_in_range (x : R) : x ^ 2 <= DBL_MAX -> float_pow2 x = Ok (x ^ 2).
Proof. intros H. unfold float_pow2. case_decide; [lra | reflexivity]. Qed.

Lemma float_pow2_overflow (x : R) : DBL_MAX < x ^ 2 -> float_pow2 x = Raise OverflowError.
Proof. intros H. unfold float_pow2. case_decide; [reflexivity | lra]. Qed.

(** A return of at most [1e150] in size has its square in range. *)
Lemma small_return_in_range (x : R) : - 1e150 <= x <= 1e150 -> x ^ 2 <= DBL_MAX.
Proof.
  intros Hx. apply Rle_trans with 1e300; [|apply DBL_MAX_large].
  assert (E : 1e300 = 1e150 * 1e150).
  { replace 1e300 with (10 ^ 300) by lra. replace 1e150 with (10 ^ 150) by lra.
    rewrite <- pow_add. reflexivity. }
  rewrite E. assert (0 < 1e150) by lra. nra.
Qed.

(** ** Volatility *)

Section Volatility.

Variables prev_return prev_variance : R.

Lemma garch_recursion_omega :
  0 <= prev_variance -> GARCH_OMEGA <= garch_recursion prev_return prev_variance.
Proof.
  intros Hv. unfold garch_recursion, GARCH_OMEGA, GARCH_ALPHA, GARCH_BETA, GARCH_GAMMA.
  assert (0 <= prev_return ^ 2) by nra.
  destruct (decide (prev_return < 0)); lra.
Qed.

(** With the square in range the call computes the recursion and takes
    its square root. *)
Lemma garch_volatility_unfold :
  prev_return ^ 2 <= DBL_MAX ->
  _get_garch_volatility prev_return prev_variance
  = (s ← math_sqrt (garch_recursion prev_return prev_variance);
     Ok (Rmax 1e-9 s, garch_recursion prev_return prev_variance)).
Proof.
  intros Hr. unfold _get_garch_volatility, garch_recursion.
  rewrite (float_pow2_in_range _ Hr).
  destruct (decide (prev_return < 0)); cbn [mbind result_bind];
    rewrite ?Rmult_1_r; reflexivity.
Qed.

Lemma garch_overflow :
  DBL_MAX < prev_return ^ 2 ->
  _get_garch_volatility prev_return prev_variance = Raise OverflowError.
Proof.
  intros Hr. unfold _get_garch_volatility.
  rewrite (float_pow2_overflow _ Hr).
  destruct (decide (prev_return < 0)); reflexivity.
Qed.

Lemma garch_returns :
  prev_return ^ 2 <= DBL_MAX ->
  0 <= garch_recursion prev_return prev_variance ->
  _get_garch_volatility prev_return prev_variance
  = Ok (Rmax 1e-9 (sqrt (garch_recursion prev_return prev_variance)),
        garch_recursion prev_return prev_variance).
Proof.
  intros Hr Hnv. rewrite garch_volatility_unfold by assumption. unfold math_sqrt.
  destruct (decide (garch_recursion prev_return prev_variance < 0)); [lra | reflexivity].
Qed.

Lemma garch_raises :
  prev_return ^ 2 <= DBL_MAX ->
  garch_recursion prev_return prev_variance < 0 ->
  _get_garch_volatility prev_return prev_variance = Raise ValueError.
Proof.
  intros Hr Hnv. rewrite garch_volatility_unfold by assumption. unfold math_sqrt.
  destruct (decide (garch_recursion prev_return prev_variance < 0)); [reflexivity | lra].
Qed.

(** What a call that returns went through. *)
Lemma garch_ok_inv (sigma nv : R) :
  _get_garch_volatility prev_return prev_variance = Ok (sigma, nv) ->
  prev_return ^ 2 <= DBL_MAX
  /\ nv = garch_recursion prev_return prev_variance
  /\ 0 <= nv
  /\ sigma = Rmax 1e-9 (sqrt nv).
Proof.
  intros Hg.
  destruct (Rle_or_lt (prev_return ^ 2) DBL_MAX) as [Hr|Hr];
    [|rewrite (garch_overflow Hr) in Hg; discriminate].
  destruct (Rle_or_lt 0 (garch_recursion prev_return prev_variance)) as [Hnv|Hnv];
    [|rewrite (garch_raises Hr Hnv) in Hg; discriminate].
  rewrite (garch_returns Hr Hnv) in Hg. injection Hg as <- <-. auto.
Qed.

End Volatility.

(** A square root is at least [y] when its argument is at least [y * y]. *)
Lemma sqrt_lower (x y : R) : 0 <= y -> y * y <= x -> y <= sqrt x.
Proof.
  intros Hy Hx. rewrite <- (sqrt_square y Hy). now apply sqrt_le_1_alt.
Qed.

Lemma sigma_floor_inactive (nv : R) :
  GARCH_OMEGA <= nv -> Rmax 1e-9 (sqrt nv) = sqrt nv /\ sqrt (Rmax 1e-9 nv) = sqrt nv.
Proof.
  unfold GARCH_OMEGA. intros Hnv.
  assert (1e-9 <= sqrt nv) by (apply sqrt_lower; lra).
  split.
  - now apply Rmax_right.
  - f_equal. apply Rmax_right. lra.
Qed.


(** ** The candidate close *)

Lemma candidate_close_unfold (o : R) (t : Z) (sv z : R) :
  candidate_close o t sv z = (e ← math_exp (total_return t sv z); Ok (o * e)).
Proof. reflexivity. Qed.

Lemma candidate_close_in_range (o : R) (t : Z) (sv z : R) :
  exp (total_return t sv z) <= DBL_MAX ->
  candidate_close o t sv z = Ok (o * exp (total_return t sv z)).
Proof.
  intros H. now rewrite candidate_close_unfold, math_exp_in_range.
Qed.

Lemma candidate_close_overflow (o : R) (t : Z) (sv z : R) :
  DBL_MAX < exp (total_return t sv z) ->
  candidate_close o t sv z = Raise OverflowError.
Proof.
  intros H. now rewrite candidate_close_unfold, math_exp_overflow.
Qed.


(** ** The tick, step by step *)

Lemma update_anchors_frame (st : SyntheticStream) (now : datetime) :
  p (update_anchors st now) = p st
  /\ reversion_strength (update_anchors st now) = reversion_strength st
  /\ garch_variance (update_anchors st now) = garch_variance st
  /\ prev_return (update_anchors st now) = prev_return st
  /\ boundary_trend (update_anchors st now) = boundary_trend st.
Proof.
  unfold update_anchors.
  destruct (second now =? 0)%Z, (minute now mod 5 =? 0)%Z, (minute now =? 0)%Z,
    (hour now =? 0)%Z; simpl; auto.
Qed.

Lemma effective_boundary_set_garch_variance (st : SyntheticStream) (v : R) :
  effective_boundary (set_garch_variance st v) = effective_boundary st.
Proof. reflexivity. Qed.

(** The anchors and strengths after a tick are those step 1 left, however
    the tick ends. *)
Lemma tick_anchors (st : SyntheticStream) (now : datetime) (z : R) :
  same_anchors (_generate_one_second st now z).1 (update_anchors st now).
Proof.
  unfold _generate_one_second.
  destruct (_get_garch_volatility _ _) as [[sigma nv]|e]; [|now split].
  rewrite effective_boundary_set_garch_variance.
  destruct (effective_boundary _) as [[lo hi]|e]; [|now split].
  destruct (candidate_close _ _ _ _) as [cand|e]; [|now split].
  destruct (enforce_boundaries _ _ _ _) as [c trend].
  destruct (log_return _ _); now split.
Qed.

(** The variance after a tick is the one step 2 computed, once it did. *)
Lemma tick_garch_variance (st : SyntheticStream) (now : datetime) (z sigma nv : R) :
  _get_garch_volatility (prev_return st) (garch_variance st) = Ok (sigma, nv) ->
  garch_variance (_generate_one_second st now z).1 = nv.
Proof.
  intros Hg. unfold _generate_one_second.
  destruct (update_anchors_frame st now) as (_ & _ & Hgv & Hpr & _).
  rewrite Hpr, Hgv, Hg, effective_boundary_set_garch_variance.
  destruct (effective_boundary _) as [[lo hi]|e]; [|reflexivity].
  destruct (candidate_close _ _ _ _) as [cand|e]; [|reflexivity].
  destruct (enforce_boundaries _ _ _ _) as [c trend].
  destruct (log_return _ _); reflexivity.
Qed.

(** The close and the trend after a tick are those step 5 left, once steps
    2 and 3 went through (the log return may still raise afterwards). *)
Lemma tick_close (st : SyntheticStream) (now : datetime) (z cand lo hi : R) :
  tick_candidate st now z = Ok cand ->
  tick_boundary st now = Ok (lo, hi) ->
  let st' := (_generate_one_second st now z).1 in
  (p st', boundary_trend st') = enforce_boundaries cand lo hi (boundary_trend st).
Proof.
  unfold tick_candidate, tick_sigma, tick_boundary, _generate_one_second.
  destruct (update_anchors_frame st now) as (Hp & _ & Hgv & Hpr & Hbt).
  rewrite Hpr, Hgv.
  destruct (_get_garch_volatility _ _) as [[sigma nv]|e]; [|intros [=]].
  cbn [mbind result_bind]. intros Hc Hb.
  rewrite effective_boundary_set_garch_variance, Hb.
  cbn [p boundary_trend set_garch_variance]. rewrite Hp, Hbt, Hc.
  destruct (enforce_boundaries _ _ _ _) as [c trend].
  destruct (log_return _ _); reflexivity.
Qed.

(** What a tick that returns a bar went through. *)
Lemma tick_ok_inv (st : SyntheticStream) (now : datetime) (z : R)
    (st' : SyntheticStream) (bar : Bar) :
  _generate_one_second st now z = (st', Ok bar) ->
  exists sigma cand lo hi,
    _get_garch_volatility (prev_return st) (garch_variance st)
    = Ok (sigma, garch_variance st')
    /\ tick_candidate st now z = Ok cand
    /\ tick_boundary st now = Ok (lo, hi)
    /\ enforce_boundaries cand lo hi (boundary_trend st) = (p st', boundary_trend st')
    /\ log_return (p st') (p st) = Ok (prev_return st')
    /\ bar = make_bar now (p st) (p st').
Proof.
  unfold tick_candidate, tick_sigma, tick_boundary, _generate_one_second.
  destruct (update_anchors_frame st now) as (Hp & _ & Hgv & Hpr & Hbt).
  rewrite Hpr, Hgv.
  destruct (_get_garch_volatility _ _) as [[sigma nv]|e]; [|intros [=]].
  rewrite effective_boundary_set_garch_variance.
  destruct (effective_boundary _) as [[lo hi]|e]; [|intros [=]].
  cbn [p boundary_trend set_garch_variance mbind result_bind]. rewrite Hp, Hbt.
  destruct (candidate_close _ _ _ _) as [cand|e]; [|intros [=]].
  destruct (enforce_boundaries _ _ _ _) as [c trend] eqn:He.
  destruct (log_return c (p st)) as [r|e] eqn:Hl; intros [= <- <-].
  eexists sigma, cand, lo, hi. cbn. repeat split; eauto.
Qed.

(** A tick returns a bar once its three fallible steps go through. *)
Lemma tick_ok_intro (st : SyntheticStream) (now : datetime) (z cand lo hi : R) :
  tick_candidate st now z = Ok cand ->
  tick_boundary st now = Ok (lo, hi) ->
  (exists r, log_return (enforce_boundaries cand lo hi (boundary_trend st)).1 (p st) = Ok r) ->
  exists st' bar, _generate_one_second st now z = (st', Ok bar).
Proof.
  unfold tick_candidate, tick_sigma, tick_boundary, _generate_one_second.
  destruct (update_anchors_frame st now) as (Hp & _ & Hgv & Hpr & Hbt).
  rewrite Hpr, Hgv.
  destruct (_get_garch_volatility _ _) as [[sigma nv]|e]; [|intros [=]].
  cbn [mbind result_bind]. intros Hc Hb [r Hl].
  rewrite effective_boundary_set_garch_variance, Hb.
  cbn [p boundary_trend set_garch_variance]. rewrite Hp, Hbt, Hc.
  destruct (enforce_boundaries _ _ _ _) as [c trend].
  cbn in Hl. rewrite Hl. eauto.
Qed.

(** ** Anchors *)

Lemma update_anchors_values (st : SyntheticStream) (now : datetime) :
  let st1 := update_anchors st now in
  m1_open st1 = (if (second now =? 0)%Z then p st else m1_open st)
  /\ m5_open st1
     = (if ((second now =? 0) && (minute now mod 5 =? 0))%Z then p st else m5_open st)
  /\ h1_open st1
     = (if ((second now =? 0) && (minute now =? 0))%Z then p st else h1_open st)
  /\ d1_open st1
     = (if ((second now =? 0) && (minute now =? 0) && (hour now =? 0))%Z
        then p st else d1_open st).
Proof.
  unfold update_anchors.
  destruct (second now =? 0)%Z, (minute now mod 5 =? 0)%Z, (minute now =? 0)%Z,
    (hour now =? 0)%Z; simpl; auto.
Qed.

Lemma update_anchors_off_second (st : SyntheticStream) (now : datetime) :
  second now <> 0%Z -> update_anchors st now = st.
Proof.
  intros Hs. unfold update_anchors.
  destruct (Z.eqb_spec (second now) 0); [contradiction | reflexivity].
Qed.

(** On a full minute that starts no five-minute period only the minute
    anchor moves. *)
Lemma update_anchors_minute_only (st : SyntheticStream) (now : datetime) :
  second now = 0%Z -> (minute now mod 5)%Z <> 0%Z ->
  update_anchors st now = set_m1_open st (p st).
Proof.
  intros Hs Hm. unfold update_anchors. rewrite Hs. cbn [Z.eqb].
  destruct (Z.eqb_spec (minute now mod 5) 0) as [|_]; [contradiction|].
  destruct (Z.eqb_spec (minute now) 0) as [E|_].
  - rewrite E in Hm. now contradict Hm.
  - now rewrite andb_false_r.
Qed.

(** ** Bands and the effective boundary *)

Section Boundary.

Variable st : SyntheticStream.
Variables r_s1 r_m1 r_m5 r_h1 r_d1 : R.
Hypothesis Hs1 : reversion_strength st !! "s1" = Some r_s1.
Hypothesis Hm1 : reversion_strength st !! "m1" = Some r_m1.
Hypothesis Hm5 : reversion_strength st !! "m5" = Some r_m5.
Hypothesis Hh1 : reversion_strength st !! "h1" = Some r_h1.
Hypothesis Hd1 : reversion_strength st !! "d1" = Some r_d1.

Lemma effective_boundary_value :
  effective_boundary st
  = Ok (Rmax (Rmax (Rmax (Rmax (p st * (1 - r_s1)) (m1_open st * (1 - r_m1)))
                      (m5_open st * (1 - r_m5)))
                (h1_open st * (1 - r_h1)))
          (d1_open st * (1 - r_d1)),
        Rmin (Rmin (Rmin (Rmin (p st * (1 + r_s1)) (m1_open st * (1 + r_m1)))
                      (m5_open st * (1 + r_m5)))
                (h1_open st * (1 + r_h1)))
          (d1_open st * (1 + r_d1))).
Proof.
  unfold effective_boundary, bands, band.
  rewrite Hs1, Hm1, Hm5, Hh1, Hd1. reflexivity.
Qed.

End Boundary.

Lemma well_formed_strengths (st : SyntheticStream) :
  well_formed st ->
  exists r_s1 r_m1 r_m5 r_h1 r_d1,
    (reversion_strength st !! "s1" = Some r_s1 /\ 0 < r_s1 < 1)
    /\ (reversion_strength st !! "m1" = Some r_m1 /\ 0 < r_m1 < 1)
    /\ (reversion_strength st !! "m5" = Some r_m5 /\ 0 < r_m5 < 1)
    /\ (reversion_strength st !! "h1" = Some r_h1 /\ 0 < r_h1 < 1)
    /\ (reversion_strength st !! "d1" = Some r_d1 /\ 0 < r_d1 < 1).
Proof.
  intros [_ _ _ _ _ Hrs _]. unfold timeframes in Hrs.
  repeat match goal with
         | H : Forall _ (_ :: _) |- _ => apply Forall_cons_1 in H; destruct H as [[? ?] H]
         end.
  eauto 10.
Qed.

(** On a well-formed state the boundary exists and both its edges are
    positive. *)
Lemma well_formed_boundary (st : SyntheticStream) :
  well_formed st -> exists lo hi, effective_boundary st = Ok (lo, hi) /\ 0 < lo /\ 0 < hi.
Proof.
  intros Hwf.
  destruct (well_formed_strengths st Hwf)
    as (r1 & r2 & r3 & r4 & r5 & [H1 ?] & [H2 ?] & [H3 ?] & [H4 ?] & [H5 ?]).
  destruct Hwf as [Hp Hd1 Hh1 Hm5 Hm1 _ _].
  eexists _, _. split; [apply (effective_boundary_value st _ _ _ _ _ H1 H2 H3 H4 H5)|].
  split.
  - eapply Rlt_le_trans; [|apply Rmax_r]. nra.
  - repeat apply Rmin_glb_lt; nra.
Qed.

(** ** The boundary enforcer *)

Section Enforcer.

Variables c lower upper : R.
Variable trend : Z.

Lemma enforce_result :
  let r := enforce_boundaries c lower upper trend in
  r.1 = upper \/ r.1 = lower \/ r.1 = c.
Proof.
  unfold enforce_boundaries.
  repeat (case_decide || case_match); cbn; auto.
Qed.

Lemma enforce_within :
  lower <= upper ->
  lower <= (enforce_boundaries c lower upper trend).1 <= upper.
Proof.
  intros Hle. unfold enforce_boundaries.
  repeat (case_decide || case_match); cbn; lra.
Qed.

Lemma enforce_inverted :
  lower > upper ->
  enforce_boundaries c lower upper trend
  = if decide (c >= upper) then (upper, (-1)%Z) else (lower, 1%Z).
Proof.
  intros Hinv. unfold enforce_boundaries.
  repeat case_decide; try reflexivity; lra.
Qed.

Lemma enforce_positive :
  0 < lower -> 0 < upper -> 0 < c -> 0 < (enforce_boundaries c lower upper trend).1.
Proof.
  intros Hl Hu Hc. destruct enforce_result as [-> | [-> | ->]]; assumption.
Qed.

End Enforcer.

(** ** Well-formed states: a tick returns a bar or overflows *)

Lemma update_anchors_well_formed (st : SyntheticStream) (now : datetime) :
  well_formed st -> well_formed (update_anchors st now).
Proof.
  intros [Hp Hd1 Hh1 Hm5 Hm1 Hrs Hgv].
  destruct (update_anchors_frame st now) as (Ep & Ers & Egv & _ & _).
  destruct (update_anchors_values st now) as (E1 & E5 & Eh & Ed). cbv zeta in *.
  split; rewrite ?Ep, ?Ers, ?Egv, ?E1, ?E5, ?Eh, ?Ed; try assumption;
    match goal with |- context [if ?b then _ else _] => destruct b end; assumption.
Qed.

Lemma set_garch_variance_well_formed (st : SyntheticStream) (v : R) :
  well_formed st -> 0 <= v -> well_formed (set_garch_variance st v).
Proof. intros [Hp Hd1 Hh1 Hm5 Hm1 Hrs Hgv] Hv. split; assumption. Qed.

Lemma tick_sigma_unfold (st : SyntheticStream) :
  prev_return st ^ 2 <= DBL_MAX ->
  0 <= garch_recursion (prev_return st) (garch_variance st) ->
  tick_sigma st
  = Ok (Rmax 1e-9 (sqrt (garch_recursion (prev_return st) (garch_variance st)))).
Proof.
  intros Hr Hnv. unfold tick_sigma. now rewrite garch_returns.
Qed.

Lemma tick_sigma_value (st : SyntheticStream) :
  prev_return st ^ 2 <= DBL_MAX ->
  0 <= garch_variance st ->
  tick_sigma st = Ok (sqrt (garch_recursion (prev_return st) (garch_variance st))).
Proof.
  intros Hr Hgv.
  pose proof (garch_recursion_omega (prev_return st) _ Hgv) as Hnv.
  rewrite tick_sigma_unfold by (try assumption; unfold GARCH_OMEGA in Hnv; lra).
  f_equal. now apply sigma_floor_inactive.
Qed.

(** The candidate close of a tick is the price times [exp] of the tick's
    exponent, when that is in range. *)
Lemma tick_candidate_unfold (st : SyntheticStream) (now : datetime) (z : R) :
  prev_return st ^ 2 <= DBL_MAX ->
  0 <= garch_recursion (prev_return st) (garch_variance st) ->
  tick_candidate st now z = (e ← math_exp (tick_exponent st now z); Ok (p st * e)).
Proof.
  intros Hr Hnv. unfold tick_candidate. now rewrite tick_sigma_unfold.
Qed.

Lemma tick_candidate_value (st : SyntheticStream) (now : datetime) (z : R) :
  0 <= garch_variance st ->
  tick_in_range st now z ->
  tick_candidate st now z = Ok (p st * exp (tick_exponent st now z)).
Proof.
  intros Hgv [Hr He].
  pose proof (garch_recursion_omega (prev_return st) _ Hgv) as Hnv.
  rewrite tick_candidate_unfold by (try assumption; unfold GARCH_OMEGA in Hnv; lra).
  now rewrite math_exp_in_range.
Qed.

Lemma log_return_positive (c o : R) : 0 < o -> 0 < c -> log_return c o = Ok (ln (c / o)).
Proof.
  intros Ho Hc. unfold log_return.
  destruct (decide (o = 0)) as [|_]; [lra|].
  destruct (decide (0 < c / o)) as [|Hn]; [reflexivity|].
  contradict Hn. now apply Rdiv_lt_0_compat.
Qed.

(** *** Bounds that keep a tick in range *)

(** The exponent is the seasonal volatility times [z + 0.1 * trend]. *)
Lemma total_return_le (t : Z) (sv z S B K : R) :
  trend_in_range t -> 0 <= sv <= S -> z <= B -> S * (B + 0.1) <= K -> 0 <= K ->
  total_return t sv z <= K.
Proof.
  intros Ht Hsv Hz HK HK0. unfold total_return.
  assert (Hw : z + IZR t * 0.1 <= B + 0.1)
    by (destruct Ht as [-> | [-> | ->]]; lra).
  destruct (Rle_or_lt (z + IZR t * 0.1) 0); nra.
Qed.

Lemma sqrt_upper (x s : R) : 0 <= s -> x <= s * s -> sqrt x <= s.
Proof.
  intros Hs Hx. rewrite <- (sqrt_square s Hs). now apply sqrt_le_1_alt.
Qed.

(** With a sigma of at most [s], a variate of at most [B] and
    [1.25 * s * (B + 0.1) <= 709], the exponent of a tick is in range. *)
Lemma tick_exponent_in_range (st : SyntheticStream) (now : datetime) (z s B : R) :
  trend_in_range (boundary_trend st) ->
  1e-9 <= s ->
  garch_recursion (prev_return st) (garch_variance st) <= s * s ->
  z <= B ->
  1.25 * s * (B + 0.1) <= 709 ->
  exp (tick_exponent st now z) <= DBL_MAX.
Proof.
  intros Ht Hs Hnv Hz HB. apply exp_in_range. unfold tick_exponent.
  pose proof (seasonality_bounds (minute_of_day now)) as Hu.
  pose proof (sqrt_upper _ s ltac:(lra) Hnv) as Hsq.
  assert (Hm : 1e-9 <= Rmax 1e-9 (sqrt (garch_recursion (prev_return st)
                                          (garch_variance st))) <= s)
    by (split; [apply Rmax_l | apply Rmax_lub; assumption]).
  apply (total_return_le _ _ _ (1.25 * s) B); try assumption; try lra.
  split; nra.
Qed.

(** Returns and variances up to 1 in size and variates up to 100 are well
    within range. *)
Lemma tick_in_range_small (st : SyntheticStream) (now : datetime) (z : R) :
  - 1 <= prev_return st <= 1 ->
  garch_variance st <= 1 ->
  trend_in_range (boundary_trend st) ->
  z <= 100 ->
  tick_in_range st now z.
Proof.
  intros Hr Hv Ht Hz. split.
  - apply small_return_in_range. lra.
  - apply (tick_exponent_in_range st now z 1.1 100); try assumption; try lra.
    unfold garch_recursion, GARCH_OMEGA, GARCH_ALPHA, GARCH_BETA, GARCH_GAMMA.
    assert (0 <= prev_return st ^ 2 <= 1) by nra.
    case_decide; lra.
Qed.

Ltac solve_in_range :=
  apply tick_in_range_small;
  cbn [prev_return garch_variance boundary_trend];
  [lra | lra | unfold trend_in_range; auto | lra].

(** In range, a tick on a well-formed state returns a bar. *)
Lemma tick_total (st : SyntheticStream) (now : datetime) (z : R) :
  well_formed st ->
  tick_in_range st now z ->
  exists st' bar, _generate_one_second st now z = (st', Ok bar) /\ well_formed st'.
Proof.
  intros Hwf Hin.
  pose proof (update_anchors_well_formed st now Hwf) as Hwf1.
  destruct (well_formed_boundary _ Hwf1) as (lo & hi & Hb & Hlo & Hhi).
  pose proof (tick_candidate_value st now z (wf_gv _ Hwf) Hin) as Hc.
  set (cand := p st * exp (tick_exponent st now z)) in Hc.
  assert (Hcand : 0 < cand)
    by (apply Rmult_lt_0_compat; [apply (wf_p _ Hwf) | apply exp_pos]).
  assert (Hpos : 0 < (enforce_boundaries cand lo hi (boundary_trend st)).1)
    by (apply enforce_positive; assumption).
  destruct (tick_ok_intro st now z cand lo hi Hc Hb) as (st' & bar & Ht).
  { eexists. apply log_return_positive; [apply (wf_p _ Hwf) | exact Hpos]. }
  exists st', bar. split; [exact Ht|].
  pose proof (tick_anchors st now z) as [Ad1 Ah1 Am5 Am1 Ars].
  pose proof (tick_close st now z cand lo hi Hc Hb) as Hcl.
  pose proof (tick_garch_variance st now z) as Hgv.
  rewrite Ht in *. cbn [fst] in *. cbv zeta in Hcl.
  destruct Hwf1 as [_ Hd1 Hh1 Hm5 Hm1 Hrs _].
  split; rewrite ?Ad1, ?Ah1, ?Am5, ?Am1, ?Ars; try assumption.
  - rewrite <- Hcl in Hpos. exact Hpos.
  - pose proof (garch_recursion_omega (prev_return st) _ (wf_gv _ Hwf)) as Hnv.
    unfold GARCH_OMEGA in Hnv.
    rewrite (Hgv _ _ (garch_returns (prev_return st) (garch_variance st) (proj1 Hin)
                        ltac:(lra))). lra.
Qed.

(** ** How a tick overflows *)

Lemma tick_pow_overflow (st : SyntheticStream) (now : datetime) (z : R) :
  DBL_MAX < prev_return st ^ 2 ->
  _generate_one_second st now z = (update_anchors st now, Raise OverflowError).
Proof.
  intros Hr.
  destruct (update_anchors_frame st now) as (_ & _ & Hgv & Hpr & _).
  unfold _generate_one_second. rewrite Hpr, Hgv, (garch_overflow _ _ Hr). reflexivity.
Qed.

Lemma tick_exp_overflow (st : SyntheticStream) (now : datetime) (z lo hi : R) :
  prev_return st ^ 2 <= DBL_MAX ->
  0 <= garch_recursion (prev_return st) (garch_variance st) ->
  tick_boundary st now = Ok (lo, hi) ->
  DBL_MAX < exp (tick_exponent st now z) ->
  _generate_one_second st now z
  = (set_garch_variance (update_anchors st now)
       (garch_recursion (prev_return st) (garch_variance st)),
     Raise OverflowError).
Proof.
  intros Hr Hnv Hb He.
  destruct (update_anchors_frame st now) as (Hp & _ & Hgv & Hpr & Hbt).
  unfold tick_boundary in Hb.
  unfold _generate_one_second.
  rewrite Hpr, Hgv, (garch_returns _ _ Hr Hnv), effective_boundary_set_garch_variance, Hb.
  cbn [p boundary_trend set_garch_variance]. rewrite Hp, Hbt.
  rewrite (candidate_close_overflow (p st) _ _ _ He). reflexivity.
Qed.

(** Out of range, a tick on a well-formed state raises [OverflowError];
    price, last return and trend are as before. *)
Lemma tick_out_of_range (st : SyntheticStream) (now : datetime) (z : R) :
  well_formed st ->
  ~ tick_in_range st now z ->
  let st' := (_generate_one_second st now z).1 in
  (_generate_one_second st now z).2 = Raise OverflowError
  /\ well_formed st'
  /\ p st' = p st /\ prev_return st' = prev_return st
  /\ boundary_trend st' = boundary_trend st.
Proof.
  intros Hwf Hout.
  pose proof (update_anchors_well_formed st now Hwf) as Hwf1.
  destruct (update_anchors_frame st now) as (Hp & _ & Hgv & Hpr & Hbt).
  destruct (Rle_or_lt (prev_return st ^ 2) DBL_MAX) as [Hr|Hr].
  - destruct (Rle_or_lt (exp (tick_exponent st now z)) DBL_MAX) as [He|He];
      [now contradict Hout|].
    destruct (well_formed_boundary _ Hwf1) as (lo & hi & Hb & _).
    pose proof (garch_recursion_omega (prev_return st) _ (wf_gv _ Hwf)) as Hnv.
    unfold GARCH_OMEGA in Hnv.
    rewrite (tick_exp_overflow st now z lo hi Hr ltac:(lra) Hb He). cbn.
    split; [reflexivity|]. split; [|auto].
    apply set_garch_variance_well_formed; [assumption | lra].
  - rewrite (tick_pow_overflow st now z Hr). cbn. auto.
Qed.

Lemma tick_in_range_dec (st : SyntheticStream) (now : datetime) (z : R) :
  tick_in_range st now z \/ ~ tick_in_range st now z.
Proof.
  unfold tick_in_range.
  destruct (Rle_or_lt (prev_return st ^ 2) DBL_MAX);
    destruct (Rle_or_lt (exp (tick_exponent st now z)) DBL_MAX);
    first [left; split; assumption | right; intros [? ?]; lra].
Qed.

(** However a tick ends, a well-formed state stays well-formed. *)
Lemma tick_well_formed (st : SyntheticStream) (now : datetime) (z : R) :
  well_formed st -> well_formed (_generate_one_second st now z).1.
Proof.
  intros Hwf.
  destruct (Rle_or_lt (prev_return st ^ 2) DBL_MAX) as [Hr|Hr];
    [destruct (Rle_or_lt (exp (tick_exponent st now z)) DBL_MAX) as [He|He]|].
  - destruct (tick_total st now z Hwf (conj Hr He)) as (st' & bar & Ht & Hwf').
    now rewrite Ht.
  - apply tick_out_of_range; [assumption | intros [_ H]; lra].
  - apply tick_out_of_range; [assumption | intros [H _]; lra].
Qed.




(** ** Claims on the seasonality factor *)

(** C3.  The factor at midday.  The docstring of [_u_seasonality] names
    the U-shaped pattern of a trading day, with its trough at midday; the code
    returns at minute 720 the value 1.25, the largest it returns at any minute
    and the one of midnight, and the smallest value 0.75 at minutes 360 and
    1080.  Minute 1439 stays strictly below minute 0.  (The formula
    [0.75 + 0.5 * cos(2 pi m / 1440)^2] and the range [[0.75, 1.25]] are
    [seasonality_formula] and [seasonality_bounds].) *)
Theorem seasonality_midday_is_maximum :
  _u_seasonality 720 = 1.25
  /\ (forall m, 0.75 <= _u_seasonality m <= _u_seasonality 720)
  /\ _u_seasonality 360 = 0.75
  /\ _u_seasonality 360 < _u_seasonality 720
  /\ _u_seasonality 1439 < _u_seasonality 0.
Proof.
  rewrite seasonality_360, seasonality_720, seasonality_0.
  split; [reflexivity|]. split; [apply seasonality_bounds|].
  split; [reflexivity|]. split; [lra | apply seasonality_1439_below_max].
Qed.

(** C10.  The factor has period 720 minutes; midday equals midnight, both
    at the maximum 1.25 of the range, and minutes 360 and 1080 are the two
    equal troughs at the minimum 0.75. *)
Theorem seasonality_period_720 (m : Z) :
  _u_seasonality (m + 720) = _u_seasonality m
  /\ _u_seasonality 720 = _u_seasonality 0
  /\ _u_seasonality 360 = _u_seasonality 1080
  /\ _u_seasonality 360 <= _u_seasonality m <= _u_seasonality 720
  /\ _u_seasonality 360 < _u_seasonality 720.
Proof.
  pose proof (seasonality_bounds m).
  rewrite seasonality_half_day, seasonality_720, seasonality_0, seasonality_360,
    seasonality_1080.
  repeat split; lra.
Qed.

(** ** Claims on the volatility *)

Lemma nextVolatility_spec_value (r v : R) :
  nextVolatility_spec r v = (sqrt (Rmax 1e-9 (garch_recursion r v)), garch_recursion r v).
Proof.
  unfold nextVolatility_spec, garch_recursion.
  case_decide; repeat f_equal; lra.
Qed.

Lemma garch_agrees_with_spec (r v : R) :
  r ^ 2 <= DBL_MAX -> 0 <= v -> _get_garch_volatility r v = Ok (nextVolatility_spec r v).
Proof.
  intros Hr Hv. pose proof (garch_recursion_omega r v Hv) as Hnv.
  rewrite garch_returns by (try assumption; unfold GARCH_OMEGA in Hnv; lra).
  rewrite nextVolatility_spec_value.
  destruct (sigma_floor_inactive _ Hnv) as [-> ->]. reflexivity.
Qed.

(** C2, as the code has it.  Whenever the square of the last return is in
    range, so that the recursion has a result [nv], and [nv] is not negative,
    [_get_garch_volatility] returns [sigma = max(1e-9, sqrt(nv))]: the floor
    of 1e-9 is on sigma, outside the square root.  [nv] is the unfloored
    [omega + alpha r^2 + leverage + beta v], and it is what the tick stores
    back into [garch_variance].  On a variance that is not negative neither
    floor is active, and the result is the one the specification words. *)
Theorem garch_floor_is_on_sigma (st : SyntheticStream) (now : datetime) (z : R) :
  let r := prev_return st in
  let v := garch_variance st in
  let nv := garch_recursion r v in
  r ^ 2 <= DBL_MAX ->
  0 <= nv ->
  _get_garch_volatility r v = Ok (Rmax 1e-9 (sqrt nv), nv)
  /\ nv = GARCH_OMEGA + GARCH_ALPHA * r ^ 2
          + (if decide (r < 0) then GARCH_GAMMA * r ^ 2 else 0) + GARCH_BETA * v
  /\ garch_variance (_generate_one_second st now z).1 = nv
  /\ (0 <= v -> _get_garch_volatility r v = Ok (nextVolatility_spec r v)).
Proof.
  intros r v nv Hr Hnv.
  pose proof (garch_returns r v Hr Hnv) as Hg.
  split; [exact Hg|]. split.
  - unfold nv, garch_recursion. case_decide; lra.
  - split; [exact (tick_garch_variance st now z _ _ Hg) | now apply garch_agrees_with_spec].
Qed.

Lemma zero_return_in_range : 0 ^ 2 <= DBL_MAX.
Proof. apply small_return_in_range. lra. Qed.

Lemma scenario_recursion_nonneg :
  0 <= garch_recursion (prev_return scenario_stream) (garch_variance scenario_stream).
Proof.
  change (0 <= garch_recursion 0 1e-5).
  pose proof (garch_recursion_omega 0 1e-5 ltac:(lra)) as H. unfold GARCH_OMEGA in H.
  lra.
Qed.

Lemma garch_floor_is_on_sigma_witness :
  prev_return scenario_stream ^ 2 <= DBL_MAX
  /\ 0 <= garch_recursion (prev_return scenario_stream) (garch_variance scenario_stream)
  /\ garch_variance (_generate_one_second scenario_stream noon_30s 0).1
     = garch_recursion 0 1e-5.
Proof.
  split; [exact zero_return_in_range|]. split; [exact scenario_recursion_nonneg|].
  apply (garch_floor_is_on_sigma scenario_stream noon_30s 0 zero_return_in_range
           scenario_recursion_nonneg).
Defined.

Lemma sqrt_floor_not_fixed : sqrt 1e-9 <> 1e-9.
Proof.
  intros E. pose proof (sqrt_sqrt 1e-9 ltac:(lra)) as H. rewrite E in H. lra.
Qed.

(** C2 as stated fails: with a zero return and the variance
    [-1.13636363636e-7] the recursion gives [3.2e-19], below the floor; the
    code returns sigma [1e-9], the floor inside the square root would give
    [sqrt 1e-9]. *)
Lemma garch_floor_counterexample :
  _get_garch_volatility 0 (- 1.13636363636e-7) = Ok (1e-9, 3.2e-19)
  /\ nextVolatility_spec 0 (- 1.13636363636e-7) = (sqrt 1e-9, 3.2e-19)
  /\ _get_garch_volatility 0 (- 1.13636363636e-7)
     <> Ok (nextVolatility_spec 0 (- 1.13636363636e-7)).
Proof.
  assert (E : garch_recursion 0 (- 1.13636363636e-7) = 3.2e-19).
  { unfold garch_recursion, GARCH_OMEGA, GARCH_ALPHA, GARCH_BETA, GARCH_GAMMA.
    case_decide; lra. }
  assert (Hsq : sqrt 3.2e-19 <= 1e-9).
  { rewrite <- (sqrt_square 1e-9) by lra. apply sqrt_le_1_alt. lra. }
  assert (Hc : _get_garch_volatility 0 (- 1.13636363636e-7) = Ok (1e-9, 3.2e-19)).
  { rewrite garch_returns by (try exact zero_return_in_range; lra).
    rewrite E, Rmax_left by lra. reflexivity. }
  assert (Hs : nextVolatility_spec 0 (- 1.13636363636e-7) = (sqrt 1e-9, 3.2e-19)).
  { rewrite nextVolatility_spec_value, E, Rmax_left by lra. reflexivity. }
  split; [exact Hc|]. split; [exact Hs|].
  rewrite Hc, Hs. intros [= H]. now apply sqrt_floor_not_fixed.
Qed.

Lemma DBL_MAX_sqrt : DBL_MAX + 1 <= DBL_MAX * DBL_MAX.
Proof. pose proof DBL_MAX_large. nra. Qed.

(** C5, as the code has it.  For every previous return whose square is in
    the range of floats and every finite previous variance that is not
    negative, [_get_garch_volatility] returns without raising, and the sigma it
    returns is strictly positive and finite. *)
Theorem garch_volatility_positive (prev_return prev_variance : R) :
  prev_return ^ 2 <= DBL_MAX ->
  0 <= prev_variance <= DBL_MAX ->
  exists sigma new_variance,
    _get_garch_volatility prev_return prev_variance = Ok (sigma, new_variance)
    /\ 0 < sigma <= DBL_MAX.
Proof.
  intros Hr Hv. pose proof (garch_recursion_omega prev_return _ (proj1 Hv)) as Hnv.
  unfold GARCH_OMEGA in Hnv.
  eexists _, _. split; [apply garch_returns; [assumption | lra]|].
  pose proof DBL_MAX_large as Hbig. pose proof DBL_MAX_sqrt as Hsq.
  split.
  - eapply Rlt_le_trans; [|apply Rmax_l]. lra.
  - apply Rmax_lub; [lra|]. apply sqrt_upper; [lra|].
    assert (garch_recursion prev_return prev_variance <= DBL_MAX + 1); [|lra].
    unfold garch_recursion, GARCH_OMEGA, GARCH_ALPHA, GARCH_BETA, GARCH_GAMMA.
    assert (0 <= prev_return ^ 2) by nra.
    case_decide; lra.
Qed.

Lemma garch_volatility_positive_witness :
  exists sigma new_variance,
    _get_garch_volatility 0 1e-5 = Ok (sigma, new_variance) /\ 0 < sigma <= DBL_MAX.
Proof.
  apply (garch_volatility_positive 0 1e-5 zero_return_in_range).
  pose proof DBL_MAX_large. lra.
Defined.

Lemma huge_return_overflows : DBL_MAX < 1e200 ^ 2.
Proof.
  apply Rlt_le_trans with (2 ^ 1024); [apply DBL_MAX_bounds|].
  replace 1e200 with (10 ^ 200) by lra. rewrite <- pow_mult.
  replace (2 ^ 1024) with (IZR (2 ^ Z.of_nat 1024) / IZR 1)
    by (rewrite <- pow_IZR; lra).
  replace (10 ^ (200 * 2)) with (IZR (10 ^ Z.of_nat (200 * 2)) / IZR 1)
    by (rewrite <- pow_IZR; lra).
  apply frac_le; vm_compute; reflexivity.
Qed.

(** C5 as stated fails: on the finite inputs 0 and -1 the recursion is
    negative and [math.sqrt] raises; on the finite inputs 1e200 and 0 the
    square of the return is out of range and the power raises. *)
Lemma garch_volatility_raises :
  _get_garch_volatility 0 (-1) = Raise ValueError
  /\ _get_garch_volatility 1e200 0 = Raise OverflowError.
Proof.
  split.
  - apply garch_raises; [exact zero_return_in_range|].
    unfold garch_recursion, GARCH_OMEGA, GARCH_ALPHA, GARCH_BETA, GARCH_GAMMA.
    case_decide; lra.
  - apply garch_overflow, huge_return_overflows.
Qed.

(** When step 2 raises, the tick ends there with the anchors written. *)
Lemma tick_garch_raise (st : SyntheticStream) (now : datetime) (z : R) (e : exn) :
  _get_garch_volatility (prev_return st) (garch_variance st) = Raise e ->
  _generate_one_second st now z = (update_anchors st now, Raise e).
Proof.
  intros Hg.
  destruct (update_anchors_frame st now) as (_ & _ & Hgv & Hpr & _).
  unfold _generate_one_second. now rewrite Hpr, Hgv, Hg.
Qed.







(** ** Claims on the anchors *)

(** C8.  After a tick, however it ends, each anchor is the price entering
    the tick when its reset condition holds and is unchanged otherwise:
    [m1_open] resets when [second == 0], [m5_open] when also
    [minute % 5 == 0], [h1_open] when also [minute == 0], [d1_open] when
    also [hour == 0]. *)
Theorem anchors_change_only_on_reset (st : SyntheticStream) (now : datetime) (z : R) :
  let st' := (_generate_one_second st now z).1 in
  m1_open st' = (if (second now =? 0)%Z then p st else m1_open st)
  /\ m5_open st'
     = (if ((second now =? 0) && (minute now mod 5 =? 0))%Z then p st else m5_open st)
  /\ h1_open st'
     = (if ((second now =? 0) && (minute now =? 0))%Z then p st else h1_open st)
  /\ d1_open st'
     = (if ((second now =? 0) && (minute now =? 0) && (hour now =? 0))%Z
        then p st else d1_open st).
Proof.
  cbv zeta. destruct (tick_anchors st now z) as [-> -> -> -> _].
  apply update_anchors_values.
Qed.

(** ** Claims on the boundary enforcer *)

Lemma crossed_midpoint_test (t : Z) (c lower upper : R) :
  ((t =? -1)%Z && bool_decide (c < (upper + lower) / 2))
  || ((t =? 1)%Z && bool_decide (c > (upper + lower) / 2)) = true
  <-> crossed_midpoint t c lower upper.
Proof.
  unfold crossed_midpoint.
  rewrite orb_true_iff, !andb_true_iff, !Z.eqb_eq, !bool_decide_eq_true.
  reflexivity.
Qed.

Lemma enforce_sound (c lower upper : R) (t : Z) :
  enforcer_rule c lower upper t (enforce_boundaries c lower upper t).1
    (enforce_boundaries c lower upper t).2.
Proof.
  unfold enforce_boundaries.
  destruct (decide (c >= upper)) as [Hu|Hu]; [now constructor|].
  destruct (decide (c <= lower)) as [Hl|Hl]; [now constructor|].
  destruct (Z.eqb_spec t 0) as [Ht|Ht]; cbn [negb].
  - apply rule_keep; tauto.
  - destruct (_ || _) eqn:Hx; cbn.
    + apply rule_ease; auto. now apply crossed_midpoint_test.
    + apply rule_keep; auto. intros [_ Hc%crossed_midpoint_test]. congruence.
Qed.

Lemma enforcer_rule_deterministic (c lower upper : R) (t : Z)
    (c1 c2 : R) (t1 t2 : Z) :
  enforcer_rule c lower upper t c1 t1 ->
  enforcer_rule c lower upper t c2 t2 ->
  c1 = c2 /\ t1 = t2.
Proof.
  intros H1 H2. destruct H1, H2; try tauto; try lra.
Qed.

(** C6.  The enforcer of the code is the rule of the specification: it
    emits exactly the close and the trend the rule allows, and the rule
    allows one outcome only.  Hence the trend moves to -1 only with a close
    equal to [upper], and to +1 only with a close equal to [lower].  The
    close and the trend a tick leaves are the enforcer's, on the tick's
    candidate close and boundary. *)
Theorem enforcer_follows_rule (c lower upper : R) (t : Z) :
  (forall close t',
     enforce_boundaries c lower upper t = (close, t')
     <-> enforcer_rule c lower upper t close t')
  /\ (forall close t',
        enforce_boundaries c lower upper t = (close, t') ->
        (t' = (-1)%Z -> t <> (-1)%Z -> close = upper)
        /\ (t' = 1%Z -> t <> 1%Z -> close = lower))
  /\ (forall st now z,
        boundary_trend st = t ->
        tick_candidate st now z = Ok c ->
        tick_boundary st now = Ok (lower, upper) ->
        (p (_generate_one_second st now z).1,
         boundary_trend (_generate_one_second st now z).1)
        = enforce_boundaries c lower upper t).
Proof.
  pose proof (enforce_sound c lower upper t) as Hs.
  split; [|split].
  - intros close t'. split.
    + intros E. rewrite E in Hs. exact Hs.
    + intros Hr.
      destruct (enforcer_rule_deterministic _ _ _ _ _ _ _ _ Hs Hr) as [<- <-].
      apply surjective_pairing.
  - intros close t' E. rewrite E in Hs. cbn in Hs.
    split; intros Ht' Ht; destruct Hs; try reflexivity; congruence.
  - intros st now z <- Hc Hb. apply (tick_close st now z c lower upper Hc Hb).
Qed.

(** ** Claims on the close and the effective boundary *)

Lemma enforce_above (x c lower upper : R) (t : Z) :
  x < c -> x < upper -> x < (enforce_boundaries c lower upper t).1.
Proof.
  intros Hc Hu. unfold enforce_boundaries.
  repeat (case_decide || case_match); cbn; lra.
Qed.

Lemma tick_bar_close (st : SyntheticStream) (now : datetime) (z : R) (bar : Bar) :
  (_generate_one_second st now z).2 = Ok bar ->
  bar_c bar = py_round2 (p (_generate_one_second st now z).1).
Proof.
  intros Hb.
  destruct (_generate_one_second st now z) as [st' r] eqn:Ht. cbn in *. subst r.
  destruct (tick_ok_inv _ _ _ _ _ Ht) as (_ & _ & _ & _ & _ & _ & _ & _ & _ & ->).
  reflexivity.
Qed.

(** C1, as the code has it.  On a tick whose effective boundary is
    inverted, the close is one of the two edges and never their midpoint:
    the upper edge, with the trend set to -1, when the candidate close is at
    or above it, and the lower edge, with the trend set to +1, otherwise.
    The bar holds that close rounded to two decimals. *)
Theorem inverted_boundary_clamps_to_edge
    (st : SyntheticStream) (now : datetime) (z cand lo hi : R) :
  tick_candidate st now z = Ok cand ->
  tick_boundary st now = Ok (lo, hi) ->
  lo > hi ->
  let st' := (_generate_one_second st now z).1 in
  (p st', boundary_trend st')
  = (if decide (cand >= hi) then (hi, (-1)%Z) else (lo, 1%Z))
  /\ p st' <> (lo + hi) / 2
  /\ forall bar, (_generate_one_second st now z).2 = Ok bar -> bar_c bar = py_round2 (p st').
Proof.
  intros Hc Hb Hinv st'.
  pose proof (tick_close st now z cand lo hi Hc Hb) as E. cbv zeta in E. fold st' in E.
  rewrite enforce_inverted in E by assumption.
  split; [exact E|]. split.
  - case_decide; injection E as -> _; lra.
  - apply tick_bar_close.
Qed.

(** C4, as the code has it.  On every tick that returns a bar, the first
    included, the close lies within the effective boundary computed from the
    anchors as the tick's own anchor update leaves them, unless that boundary
    is inverted.  On a tick off the full minute the update changes nothing,
    and this is the boundary of the anchors as they stood before. *)
Theorem close_within_tick_boundary
    (st : SyntheticStream) (now : datetime) (z : R)
    (st' : SyntheticStream) (bar : Bar) (lo hi : R) :
  _generate_one_second st now z = (st', Ok bar) ->
  tick_boundary st now = Ok (lo, hi) ->
  lo <= hi ->
  lo <= p st' <= hi
  /\ bar_c bar = py_round2 (p st')
  /\ (second now <> 0%Z -> boundary_before_update st = Ok (lo, hi)).
Proof.
  intros Ht Hb Hle.
  destruct (tick_ok_inv _ _ _ _ _ Ht) as (sigma & cand & lo' & hi' & _ & _ & Hb' & He & _ & ->).
  rewrite Hb in Hb'. injection Hb' as <- <-.
  split; [|split].
  - pose proof (enforce_within cand lo hi (boundary_trend st) Hle) as Hw.
    rewrite He in Hw. exact Hw.
  - reflexivity.
  - intros Hs. unfold boundary_before_update.
    unfold tick_boundary in Hb. now rewrite update_anchors_off_second in Hb.
Qed.

(** ** The example states *)

Ltac eval_max_min :=
  repeat match goal with
         | |- context [Rmax ?a ?b] =>
             first [rewrite (Rmax_left a b) by lra | rewrite (Rmax_right a b) by lra]
         | |- context [Rmin ?a ?b] =>
             first [rewrite (Rmin_left a b) by lra | rewrite (Rmin_right a b) by lra]
         end.

Ltac solve_well_formed :=
  split; cbn [p d1_open h1_open m5_open m1_open garch_variance reversion_strength];
  [lra | lra | lra | lra | lra
  | repeat constructor; eexists; (split; [reflexivity | lra])
  | lra].

Ltac solve_boundary :=
  erewrite effective_boundary_value by reflexivity;
  cbn [p d1_open h1_open m5_open m1_open];
  eval_max_min; do 2 f_equal; lra.

Lemma scenario_well_formed : well_formed scenario_stream.
Proof. unfold scenario_stream. solve_well_formed. Qed.

Lemma inverted_well_formed : well_formed inverted_stream.
Proof. unfold inverted_stream. solve_well_formed. Qed.

Lemma clamped_well_formed : well_formed clamped_stream.
Proof. unfold clamped_stream. solve_well_formed. Qed.

Lemma scenario_boundary : tick_boundary scenario_stream noon_30s = Ok (99, 101).
Proof. unfold tick_boundary, update_anchors, scenario_stream. cbn [second noon_30s Z.eqb]. solve_boundary. Qed.

Lemma inverted_boundary : tick_boundary inverted_stream noon_30s = Ok (195, 101).
Proof. unfold tick_boundary, update_anchors, inverted_stream. cbn [second noon_30s Z.eqb]. solve_boundary. Qed.

Lemma scenario_in_range (now : datetime) (z : R) :
  z <= 100 -> tick_in_range scenario_stream now z.
Proof. intros Hz. unfold scenario_stream. solve_in_range. Qed.

Lemma inverted_in_range (now : datetime) (z : R) :
  z <= 100 -> tick_in_range inverted_stream now z.
Proof. intros Hz. unfold inverted_stream. solve_in_range. Qed.

Lemma clamped_in_range (now : datetime) (z : R) :
  z <= 100 -> tick_in_range clamped_stream now z.
Proof. intros Hz. unfold clamped_stream. solve_in_range. Qed.

(** With no shock and no trend the exponent is zero and the candidate
    close is the open. *)
Lemma total_return_still (seasonal_vol : R) : total_return 0 seasonal_vol 0 = 0.
Proof. unfold total_return. lra. Qed.

Lemma candidate_close_still (o seasonal_vol : R) :
  candidate_close o 0 seasonal_vol 0 = Ok o.
Proof.
  pose proof DBL_MAX_large.
  rewrite candidate_close_in_range; rewrite total_return_still, exp_0; [|lra].
  f_equal. lra.
Qed.

(** The seasonal volatility of a tick is positive. *)
Lemma seasonal_vol_positive (x : R) (m : Z) : 0 < Rmax 1e-9 x * _u_seasonality m.
Proof.
  apply Rmult_lt_0_compat.
  - eapply Rlt_le_trans; [|apply Rmax_l]. lra.
  - pose proof (seasonality_bounds m). lra.
Qed.

(** A positive total return moves the candidate close above the open. *)
Lemma tick_exponent_positive (st : SyntheticStream) (now : datetime) (z : R) :
  0 < z + IZR (boundary_trend st) * 0.1 -> 0 < tick_exponent st now z.
Proof.
  intros Hz. unfold tick_exponent, total_return.
  pose proof (seasonal_vol_positive
                (sqrt (garch_recursion (prev_return st) (garch_variance st)))
                (minute_of_day now)).
  nra.
Qed.

Lemma candidate_up (o x : R) : 0 < o -> 0 < x -> o < o * exp x.
Proof.
  intros Ho Hx. pose proof (exp_increasing _ _ Hx) as He. rewrite exp_0 in He. nra.
Qed.

Lemma inverted_candidate : tick_candidate inverted_stream noon_30s 0 = Ok 100.
Proof.
  unfold tick_candidate.
  rewrite tick_sigma_value
    by (first [exact zero_return_in_range | apply (wf_gv _ inverted_well_formed)]).
  apply candidate_close_still.
Qed.

Lemma scenario_candidate (now : datetime) :
  tick_candidate scenario_stream now 0 = Ok (p scenario_stream).
Proof.
  unfold tick_candidate.
  rewrite tick_sigma_value
    by (first [exact zero_return_in_range | apply (wf_gv _ scenario_well_formed)]).
  apply candidate_close_still.
Qed.

Lemma inverted_boundary_clamps_to_edge_witness :
  p (_generate_one_second inverted_stream noon_30s 0).1 <> (195 + 101) / 2.
Proof.
  apply (inverted_boundary_clamps_to_edge inverted_stream noon_30s 0 100 195 101
           inverted_candidate inverted_boundary).
  lra.
Defined.

(** C1 as stated fails: on [inverted_stream] the boundary of the tick is
    (195, 101), inverted; the tick returns a bar and its close is 195, the
    lower bound, not the midpoint 148. *)
Lemma inverted_boundary_close_not_midpoint :
  tick_boundary inverted_stream noon_30s = Ok (195, 101)
  /\ 195 > 101
  /\ exists st' bar,
       _generate_one_second inverted_stream noon_30s 0 = (st', Ok bar)
       /\ p st' = 195
       /\ p st' <> (195 + 101) / 2.
Proof.
  split; [exact inverted_boundary|]. split; [lra|].
  destruct (tick_total inverted_stream noon_30s 0 inverted_well_formed
              (inverted_in_range noon_30s 0 ltac:(lra))) as (st' & bar & Ht & _).
  exists st', bar. split; [exact Ht|].
  pose proof (tick_close _ _ _ _ _ _ inverted_candidate inverted_boundary) as E.
  rewrite Ht in E. cbv zeta in E. cbn [fst] in E.
  rewrite enforce_inverted in E by lra.
  case_decide; [lra|]. injection E as -> _. split; lra.
Qed.

Lemma close_within_tick_boundary_witness :
  exists st' bar,
    _generate_one_second scenario_stream noon_30s 0 = (st', Ok bar)
    /\ 99 <= p st' <= 101.
Proof.
  destruct (tick_total scenario_stream noon_30s 0 scenario_well_formed
              (scenario_in_range noon_30s 0 ltac:(lra))) as (st' & bar & Ht & _).
  exists st', bar. split; [exact Ht|].
  apply (close_within_tick_boundary scenario_stream noon_30s 0 st' bar 99 101 Ht
           scenario_boundary).
  lra.
Defined.

Lemma clamped_boundary_before : boundary_before_update clamped_stream = Ok (101.475, 102.5).
Proof. unfold boundary_before_update, clamped_stream. solve_boundary. Qed.

Lemma clamped_boundary_tick : tick_boundary clamped_stream noon_1min = Ok (101.475, 103.5).
Proof.
  unfold tick_boundary.
  rewrite update_anchors_minute_only by (vm_compute; congruence).
  unfold clamped_stream, set_m1_open.
  cbn [p d1_open h1_open m5_open m1_open reversion_strength garch_variance
       prev_return boundary_trend].
  solve_boundary.
Qed.

(** C4 as stated fails: [clamped_stream] sits at the upper edge 102.5 of
    the boundary of its anchors, (101.475, 102.5), which is not inverted.  The
    tick at 12:01:00 first moves the minute anchor to the price, and with the
    draw z = 1 its close ends above 102.5. *)
Lemma close_outside_boundary_before_update :
  boundary_before_update clamped_stream = Ok (101.475, 102.5)
  /\ 101.475 <= 102.5
  /\ exists st' bar,
       _generate_one_second clamped_stream noon_1min 1 = (st', Ok bar)
       /\ ~ (101.475 <= p st' <= 102.5).
Proof.
  split; [exact clamped_boundary_before|]. split; [lra|].
  pose proof (clamped_in_range noon_1min 1 ltac:(lra)) as Hin.
  destruct (tick_total clamped_stream noon_1min 1 clamped_well_formed Hin)
    as (st' & bar & Ht & _).
  exists st', bar. split; [exact Ht|].
  pose proof (tick_candidate_value clamped_stream noon_1min 1
                (wf_gv _ clamped_well_formed) Hin) as Hc.
  pose proof (tick_close _ _ _ _ _ _ Hc clamped_boundary_tick) as E.
  rewrite Ht in E. cbv zeta in E. cbn [fst] in E.
  assert (Hup : 102.5 < p st').
  { change (p st') with (p st', boundary_trend st').1. rewrite E.
    apply enforce_above; [|lra].
    change 102.5 with (p clamped_stream) at 1.
    apply candidate_up; [apply (wf_p _ clamped_well_formed)|].
    apply tick_exponent_positive. cbn [boundary_trend clamped_stream]. lra. }
  lra.
Qed.

(** ** Claims on snapshots *)

(** The constructor never raises: the five keys are those of
    [REVERSION_RANGES]. *)
Lemma init_returns (initial_price : R) (u : InitDraws) :
  exists instance, __init__ initial_price u = Ok instance /\ p instance = initial_price.
Proof. eexists. split; reflexivity. Qed.

(** Every attribute is read back from the snapshot, whatever the dict it
    is laid over holds. *)
Lemma of_dict_update (st : SyntheticStream) (d : gmap string pyval) :
  of_dict (to_dict st ∪ d) = Some st.
Proof.
  assert (Hl : forall k v, to_dict st !! k = Some v -> (to_dict st ∪ d) !! k = Some v)
    by (intros k v; apply lookup_union_Some_l).
  unfold of_dict, get_float, get_int, get_dict.
  rewrite (Hl "p" (PyFloat (p st)) eq_refl),
    (Hl "d1_open" (PyFloat (d1_open st)) eq_refl),
    (Hl "h1_open" (PyFloat (h1_open st)) eq_refl),
    (Hl "m5_open" (PyFloat (m5_open st)) eq_refl),
    (Hl "m1_open" (PyFloat (m1_open st)) eq_refl),
    (Hl "reversion_strength" (PyDict (reversion_strength st)) eq_refl),
    (Hl "garch_variance" (PyFloat (garch_variance st)) eq_refl),
    (Hl "prev_return" (PyFloat (prev_return st)) eq_refl),
    (Hl "boundary_trend" (PyInt (boundary_trend st)) eq_refl).
  destruct st; reflexivity.
Qed.

Lemma from_dict_to_dict (st : SyntheticStream) (u : InitDraws) :
  from_dict u (to_dict st) = Some st.
Proof.
  unfold from_dict.
  destruct (init_returns 100.0 u) as (instance & -> & _).
  apply of_dict_update.
Qed.

(** C9.  Restoring the snapshot of a state gives back the state, all
    fields equal, whatever variates the constructor drew in between; so the
    restored stream, fed the same clock readings and normal draws, returns
    the same bars (and ends in the same state, or with the same exception). *)
Theorem snapshot_round_trip (st : SyntheticStream) (u : InitDraws) :
  from_dict u (to_dict st) = Some st
  /\ forall ticks : list (datetime * R),
       (fun restored => run restored ticks) <$> from_dict u (to_dict st)
       = Some (run st ticks).
Proof.
  split; [apply from_dict_to_dict|].
  intros ticks. rewrite from_dict_to_dict. reflexivity.
Qed.

(** ** Runs never meet an inverted boundary *)

Lemma max5_upper (a b c d e : R) :
  let m := Rmax (Rmax (Rmax (Rmax a b) c) d) e in
  a <= m /\ b <= m /\ c <= m /\ d <= m /\ e <= m.
Proof.
  cbv zeta. unfold Rmax. repeat destruct (Rle_dec _ _); repeat split; lra.
Qed.

Lemma min5_lower (a b c d e : R) :
  let m := Rmin (Rmin (Rmin (Rmin a b) c) d) e in
  m <= a /\ m <= b /\ m <= c /\ m <= d /\ m <= e.
Proof.
  cbv zeta. unfold Rmin. repeat destruct (Rle_dec _ _); repeat split; lra.
Qed.

(** Two lookups of one key give one strength. *)
Ltac same_strength r :=
  match goal with
  | H1 : ?m !! ?k = Some r, H2 : ?m !! ?k = Some ?r' |- _ =>
      assert (r = r') by congruence; subst r
  end.

Lemma in_band_centre (price r : R) : 0 < price -> 0 < r -> in_band price r price.
Proof. intros Hp Hr. unfold in_band. nra. Qed.

Lemma update_anchors_within_bands (st : SyntheticStream) (now : datetime) :
  well_formed st -> within_bands st -> within_bands (update_anchors st now).
Proof.
  intros Hwf [H1 H5 Hh Hd].
  destruct (well_formed_strengths st Hwf)
    as (r1 & r2 & r3 & r4 & r5 & _ & [E2 ?] & [E3 ?] & [E4 ?] & [E5 ?]).
  pose proof (wf_p _ Hwf) as Hp.
  destruct (update_anchors_frame st now) as (Ep & Ers & _ & _ & _).
  destruct (update_anchors_values st now) as (A1 & A5 & Ah & Ad). cbv zeta in *.
  split; intros r Hr; rewrite Ep, ?A1, ?A5, ?Ah, ?Ad; rewrite Ers in Hr;
    match goal with |- context [if ?b then _ else _] => destruct b end;
    auto; apply in_band_centre; try assumption; same_strength r; lra.
Qed.

(** Within the bands, the boundary holds the price: it is not inverted. *)
Lemma within_bands_boundary (st : SyntheticStream) :
  well_formed st -> within_bands st ->
  exists lo hi, effective_boundary st = Ok (lo, hi) /\ lo <= p st <= hi.
Proof.
  intros Hwf [H1 H5 Hh Hd].
  destruct (well_formed_strengths st Hwf)
    as (r1 & r2 & r3 & r4 & r5 & [E1 ?] & [E2 ?] & [E3 ?] & [E4 ?] & [E5 ?]).
  pose proof (wf_p _ Hwf) as Hp.
  pose proof (in_band_centre (p st) r1 Hp ltac:(lra)) as B1.
  specialize (H1 _ E2). specialize (H5 _ E3). specialize (Hh _ E4). specialize (Hd _ E5).
  unfold in_band in *.
  eexists _, _. split; [apply (effective_boundary_value st _ _ _ _ _ E1 E2 E3 E4 E5)|].
  split.
  - repeat apply Rmax_lub; lra.
  - repeat apply Rmin_glb; lra.
Qed.

(** A close within the boundary is within every band. *)
Lemma boundary_within_bands (st st' : SyntheticStream) (lo hi : R) :
  effective_boundary st = Ok (lo, hi) ->
  same_anchors st' st ->
  lo <= p st' <= hi ->
  within_bands st'.
Proof.
  intros Hb [Ad Ah A5 A1 Ars] Hin.
  assert (Hk : forall tf r, reversion_strength st' !! tf = Some r ->
                            reversion_strength st !! tf = Some r)
    by (intros tf r; now rewrite Ars).
  unfold effective_boundary, bands, band in Hb.
  destruct (reversion_strength st !! "s1") as [r1|] eqn:E1; [|discriminate].
  destruct (reversion_strength st !! "m1") as [r2|] eqn:E2; [|discriminate].
  destruct (reversion_strength st !! "m5") as [r3|] eqn:E3; [|discriminate].
  destruct (reversion_strength st !! "h1") as [r4|] eqn:E4; [|discriminate].
  destruct (reversion_strength st !! "d1") as [r5|] eqn:E5; [|discriminate].
  cbn in Hb. injection Hb as <- <-.
  match type of Hin with
  | Rmax (Rmax (Rmax (Rmax ?a ?b) ?c) ?d) ?e <= _
    <= Rmin (Rmin (Rmin (Rmin ?a' ?b') ?c') ?d') ?e' =>
      pose proof (max5_upper a b c d e) as (_ & ? & ? & ? & ?);
      pose proof (min5_lower a' b' c' d' e') as (_ & ? & ? & ? & ?)
  end.
  cbv zeta in *.
  split; intros r Hr%Hk; unfold in_band; rewrite ?Ad, ?Ah, ?A5, ?A1;
    same_strength r; lra.
Qed.

Lemma tick_within_bands (st : SyntheticStream) (now : datetime) (z : R) :
  well_formed st -> within_bands st ->
  exists lo hi,
    tick_boundary st now = Ok (lo, hi)
    /\ lo <= hi
    /\ lo <= p (_generate_one_second st now z).1 <= hi
    /\ well_formed (_generate_one_second st now z).1
    /\ within_bands (_generate_one_second st now z).1.
Proof.
  intros Hwf Hwb.
  pose proof (update_anchors_well_formed st now Hwf) as Hwf1.
  pose proof (update_anchors_within_bands st now Hwf Hwb) as Hwb1.
  destruct (within_bands_boundary _ Hwf1 Hwb1) as (lo & hi & Hb & Hin).
  assert (Hle : lo <= hi) by lra.
  exists lo, hi. split; [exact Hb|]. split; [exact Hle|].
  assert (Hcl : lo <= p (_generate_one_second st now z).1 <= hi).
  { destruct (tick_in_range_dec st now z) as [Hr|Hr].
    - pose proof (tick_candidate_value st now z (wf_gv _ Hwf) Hr) as Hc.
      pose proof (tick_close st now z _ lo hi Hc Hb) as E. cbv zeta in E.
      change (p (_generate_one_second st now z).1)
        with (p (_generate_one_second st now z).1,
              boundary_trend (_generate_one_second st now z).1).1.
      rewrite E. now apply enforce_within.
    - destruct (tick_out_of_range st now z Hwf Hr) as (_ & _ & -> & _).
      destruct (update_anchors_frame st now) as (Hp & _). now rewrite <- Hp. }
  split; [exact Hcl|].
  split; [now apply tick_well_formed|].
  exact (boundary_within_bands _ _ _ _ Hb (tick_anchors st now z) Hcl).
Qed.

Lemma fresh_stream_stable (initial_price : R) (u : InitDraws) :
  0 < initial_price -> unit_draws u ->
  exists st, __init__ initial_price u = Ok st /\ well_formed st /\ within_bands st.
Proof.
  intros Hp Hu. eexists. split; [reflexivity|].
  unfold unit_draws in Hu.
  repeat match goal with
         | H : Forall _ (_ :: _) |- _ => apply Forall_cons_1 in H; destruct H as [? H]
         end.
  assert (Hs : Forall (fun tf => exists r,
                 ({[ "s1" := uniform 0.001 0.02 (u_s1 u) / 2.0;
                     "m1" := uniform 0.002 0.05 (u_m1 u) / 2.0;
                     "m5" := uniform 0.005 0.07 (u_m5 u) / 2.0;
                     "h1" := uniform 0.01 0.10 (u_h1 u) / 2.0;
                     "d1" := uniform 0.10 0.10 (u_d1 u) / 2.0 ]} : gmap string R) !! tf
                 = Some r /\ 0 < r < 1) timeframes).
  { unfold timeframes, uniform.
    repeat constructor; eexists; (split; [reflexivity | lra]). }
  split.
  - split; cbn [p d1_open h1_open m5_open m1_open garch_variance reversion_strength];
      try lra. exact Hs.
  - unfold timeframes in Hs.
    repeat match goal with
           | H : Forall _ (_ :: _) |- _ =>
               apply Forall_cons_1 in H; destruct H as [(? & ? & ?) H]
           end.
    split; cbn [p d1_open h1_open m5_open m1_open reversion_strength]; intros r Hr;
      apply in_band_centre; try assumption; same_strength r; lra.
Qed.

Lemma run_within_bands (ticks : list (datetime * R)) (st : SyntheticStream) :
  well_formed st -> within_bands st ->
  well_formed (run st ticks).1.2 /\ within_bands (run st ticks).1.2.
Proof.
  revert st. induction ticks as [|[now z] rest IH]; intros st Hwf Hwb; [now split|].
  destruct (tick_within_bands st now z Hwf Hwb) as (_ & _ & _ & _ & _ & Hwf' & Hwb').
  cbn [run].
  destruct (_generate_one_second st now z) as [st' [bar|e]]; cbn [fst] in *.
  - specialize (IH st' Hwf' Hwb').
    destruct (run st' rest) as [[history st_end] e]. exact IH.
  - now split.
Qed.


(** X2.  A stream built by the constructor from a positive price, and any
    state a run reaches from it, never meets an inverted boundary: the
    boundary of every tick holds the price entering it and the close. *)
Theorem fresh_runs_never_inverted
    (initial_price : R) (u : InitDraws) (ticks : list (datetime * R))
    (now : datetime) (z : R) :
  0 < initial_price -> unit_draws u ->
  exists st0 lo hi,
    __init__ initial_price u = Ok st0
    /\ tick_boundary (run st0 ticks).1.2 now = Ok (lo, hi)
    /\ lo <= hi
    /\ lo <= p (_generate_one_second (run st0 ticks).1.2 now z).1 <= hi.
Proof.
  intros Hp Hu.
  destruct (fresh_stream_stable initial_price u Hp Hu) as (st0 & Hi & Hwf & Hwb).
  destruct (run_within_bands ticks st0 Hwf Hwb) as [Hwf' Hwb'].
  destruct (tick_within_bands _ now z Hwf' Hwb') as (lo & hi & Hb & Hle & Hcl & _).
  exists st0, lo, hi. auto.
Qed.

Lemma fresh_runs_never_inverted_witness :
  exists st0 lo hi,
    __init__ 100 (mkDraws 0.5 0.5 0.5 0.5 0.5) = Ok st0
    /\ tick_boundary (run st0 [(noon_30s, 0)]).1.2 noon_1min = Ok (lo, hi)
    /\ lo <= hi
    /\ lo <= p (_generate_one_second (run st0 [(noon_30s, 0)]).1.2 noon_1min 1).1 <= hi.
Proof.
  apply (fresh_runs_never_inverted 100 (mkDraws 0.5 0.5 0.5 0.5 0.5)
           [(noon_30s, 0)] noon_1min 1).
  - lra.
  - unfold unit_draws. cbn [u_s1 u_m1 u_m5 u_h1 u_d1]. repeat constructor; lra.
Defined.

(** ** Bars *)

Lemma Int_part_bounds (x : R) : IZR (Int_part x) <= x < IZR (Int_part x) + 1.
Proof. destruct (base_Int_part x). lra. Qed.

Lemma Int_part_IZR (n : Z) : Int_part (IZR n) = n.
Proof. symmetry. apply Int_part_spec. lra. Qed.

Lemma round_half_even_IZR (n : Z) : round_half_even (IZR n) = n.
Proof.
  unfold round_half_even. rewrite Int_part_IZR.
  case_decide; [reflexivity | lra].
Qed.

(** An amount of whole cents rounds to itself. *)
Lemma py_round2_cents (n : Z) : py_round2 (IZR n / 100) = IZR n / 100.
Proof.
  unfold py_round2. replace (IZR n / 100 * 100) with (IZR n) by lra.
  now rewrite round_half_even_IZR.
Qed.

Lemma round_half_even_mono (x y : R) :
  x <= y -> (round_half_even x <= round_half_even y)%Z.
Proof.
  intros Hxy.
  pose proof (Int_part_bounds x) as Hx. pose proof (Int_part_bounds y) as Hy.
  assert (Hnm : (Int_part x <= Int_part y)%Z).
  { apply Z.lt_succ_r, lt_IZR. rewrite succ_IZR. lra. }
  unfold round_half_even.
  destruct (Z.eq_dec (Int_part x) (Int_part y)) as [E|E].
  - rewrite <- E in *. repeat case_decide; destruct (Z.even (Int_part x));
      try lia; exfalso; lra.
  - repeat case_decide; destruct (Z.even (Int_part x)), (Z.even (Int_part y)); lia.
Qed.

Lemma py_round2_mono (x y : R) : x <= y -> py_round2 x <= py_round2 y.
Proof.
  intros Hxy. unfold py_round2.
  assert (H : (round_half_even (x * 100) <= round_half_even (y * 100))%Z)
    by (apply round_half_even_mono; lra).
  apply IZR_le in H. lra.
Qed.

Lemma make_bar_ordered (now : datetime) (o c : R) :
  let bar := make_bar now o c in
  bar_l bar <= bar_o bar <= bar_h bar
  /\ bar_l bar <= bar_c bar <= bar_h bar
  /\ bar_h bar = Rmax (bar_o bar) (bar_c bar)
  /\ bar_l bar = Rmin (bar_o bar) (bar_c bar).
Proof.
  cbn.
  pose proof (py_round2_mono _ _ (Rmin_l o c)). pose proof (py_round2_mono _ _ (Rmin_r o c)).
  pose proof (py_round2_mono _ _ (Rmax_l o c)). pose proof (py_round2_mono _ _ (Rmax_r o c)).
  repeat split; try assumption.
  - destruct (Rle_dec o c) as [Hoc|Hoc].
    + rewrite (Rmax_right o c Hoc), Rmax_right; [reflexivity | now apply py_round2_mono].
    + rewrite (Rmax_left o c), Rmax_left; [reflexivity | apply py_round2_mono | ]; lra.
  - destruct (Rle_dec o c) as [Hoc|Hoc].
    + rewrite (Rmin_left o c Hoc), Rmin_left; [reflexivity | now apply py_round2_mono].
    + rewrite (Rmin_right o c), Rmin_right; [reflexivity | apply py_round2_mono | ]; lra.
Qed.

(** X3.  Every bar a tick returns is ordered: low <= open <= high,
    low <= close <= high, high = max(open, close), low = min(open, close);
    its open and close are the prices entering and leaving the tick, rounded
    to two decimals. *)
Theorem bar_ordered (st : SyntheticStream) (now : datetime) (z : R)
    (st' : SyntheticStream) (bar : Bar) :
  _generate_one_second st now z = (st', Ok bar) ->
  bar_l bar <= bar_o bar <= bar_h bar
  /\ bar_l bar <= bar_c bar <= bar_h bar
  /\ bar_h bar = Rmax (bar_o bar) (bar_c bar)
  /\ bar_l bar = Rmin (bar_o bar) (bar_c bar)
  /\ bar_o bar = py_round2 (p st)
  /\ bar_c bar = py_round2 (p st').
Proof.
  intros Ht.
  destruct (tick_ok_inv _ _ _ _ _ Ht) as (_ & _ & _ & _ & _ & _ & _ & _ & _ & ->).
  pose proof (make_bar_ordered now (p st) (p st')) as (H1 & H2 & H3 & H4).
  repeat split; solve [apply H1 | apply H2 | exact H3 | exact H4].
Qed.

Lemma bar_ordered_witness :
  exists st' bar,
    _generate_one_second scenario_stream noon_30s 0 = (st', Ok bar)
    /\ bar_l bar <= bar_o bar <= bar_h bar.
Proof.
  destruct (tick_total scenario_stream noon_30s 0 scenario_well_formed
              (scenario_in_range noon_30s 0 ltac:(lra))) as (st' & bar & Ht & _).
  exists st', bar. split; [exact Ht|].
  apply (bar_ordered scenario_stream noon_30s 0 st' bar Ht).
Defined.

(** X4.  The concrete scenario of the specification: the fresh stream at
    price 100.0 with strengths (0.01, 0.025, 0.035, 0.05, 0.05), ticked at
    00:00:00 with the draw z = 0, opens and closes at 100.0, returns the bar
    (o, h, l, c) = (100.00, 100.00, 100.00, 100.00) and keeps the trend 0. *)
Theorem scenario_first_tick :
  exists st',
    _generate_one_second scenario_stream midnight 0
    = (st', Ok {| bar_t := 0; bar_o := 100; bar_h := 100; bar_l := 100; bar_c := 100 |})
    /\ p st' = 100
    /\ boundary_trend st' = 0%Z.
Proof.
  destruct (tick_total scenario_stream midnight 0 scenario_well_formed
              (scenario_in_range midnight 0 ltac:(lra))) as (st' & bar & Ht & _).
  exists st'.
  destruct (tick_ok_inv _ _ _ _ _ Ht) as (sigma & cand & lo & hi & _ & Hc & Hb & He & _ & Hbar).
  rewrite scenario_candidate in Hc. injection Hc as <-.
  change (boundary_trend scenario_stream) with 0%Z in He.
  change (p scenario_stream) with 100 in He.
  assert (Hb' : tick_boundary scenario_stream midnight = Ok (99, 101)).
  { change (tick_boundary scenario_stream midnight)
      with (tick_boundary scenario_stream noon_30s).
    exact scenario_boundary. }
  rewrite Hb' in Hb. injection Hb as <- <-.
  assert (E : enforce_boundaries 100 99 101 0 = (100, 0%Z)).
  { unfold enforce_boundaries. repeat case_decide; try lra. reflexivity. }
  rewrite E in He. injection He as Hp Ht'.
  split; [|split; congruence].
  rewrite Ht, Hbar, <- Hp. cbn [p scenario_stream]. unfold make_bar.
  rewrite Rmax_left, Rmin_left by lra.
  replace 100 with (IZR 10000 / 100) at 1 2 3 4 by lra.
  rewrite py_round2_cents.
  replace (IZR 10000 / 100) with 100 by lra.
  unfold py_int. cbn [timestamp midnight].
  replace (0 * 1000) with (IZR 0) by lra.
  case_decide; [|lra]. rewrite Int_part_IZR. reflexivity.
Qed.

(** ** The trend stays in range *)

Lemma enforce_trend_in_range (c lower upper : R) (t : Z) :
  trend_in_range t -> trend_in_range (enforce_boundaries c lower upper t).2.
Proof.
  intros Ht. pose proof (enforce_sound c lower upper t) as Hs.
  destruct Hs; unfold trend_in_range; auto.
Qed.

Lemma tick_trend_in_range (st : SyntheticStream) (now : datetime) (z : R) :
  trend_in_range (boundary_trend st) ->
  trend_in_range (boundary_trend (_generate_one_second st now z).1).
Proof.
  intros Ht. unfold _generate_one_second.
  destruct (update_anchors_frame st now) as (_ & _ & _ & _ & Hbt).
  destruct (_get_garch_volatility _ _) as [[sigma nv]|e]; cbn [fst]; [|now rewrite Hbt].
  rewrite effective_boundary_set_garch_variance.
  destruct (effective_boundary _) as [[lo hi]|e]; cbn [fst boundary_trend set_garch_variance];
    [|now rewrite Hbt].
  rewrite Hbt.
  destruct (candidate_close _ _ _ _) as [cand|e]; cbn [fst boundary_trend set_garch_variance];
    [|now rewrite ?Hbt].
  pose proof (enforce_trend_in_range cand lo hi (boundary_trend st) Ht) as He.
  destruct (enforce_boundaries _ _ _ _) as [c trend].
  destruct (log_return _ _); exact He.
Qed.

(** X5.  The boundary trend only ever takes the values -1, 0 and 1: from a
    state whose trend is one of them, so is the trend after every tick and at
    the end of every run, whether or not it raises. *)
Theorem trend_stays_in_range (ticks : list (datetime * R)) (st : SyntheticStream) :
  trend_in_range (boundary_trend st) ->
  trend_in_range (boundary_trend (run st ticks).1.2).
Proof.
  revert st. induction ticks as [|[now z] rest IH]; intros st Ht; [exact Ht|].
  pose proof (tick_trend_in_range st now z Ht) as Ht'. cbn [run].
  destruct (_generate_one_second st now z) as [st' [bar|e]]; cbn [fst] in Ht'.
  - specialize (IH st' Ht'). destruct (run st' rest) as [[history st_end] e]. exact IH.
  - exact Ht'.
Qed.

Lemma trend_stays_in_range_witness :
  trend_in_range
    (boundary_trend (run clamped_stream [(noon_1min, 1); (noon_1min, 0)]).1.2).
Proof.
  apply (trend_stays_in_range [(noon_1min, 1); (noon_1min, 0)] clamped_stream).
  left. reflexivity.
Defined.

(** ** The move of one tick *)

Lemma boundary_s1 (st : SyntheticStream) (lo hi r : R) :
  effective_boundary st = Ok (lo, hi) ->
  reversion_strength st !! "s1" = Some r ->
  p st * (1 - r) <= lo /\ hi <= p st * (1 + r).
Proof.
  intros Hb Hr. unfold effective_boundary, bands, band in Hb. rewrite Hr in Hb.
  destruct (reversion_strength st !! "m1") as [r2|]; [|discriminate].
  destruct (reversion_strength st !! "m5") as [r3|]; [|discriminate].
  destruct (reversion_strength st !! "h1") as [r4|]; [|discriminate].
  destruct (reversion_strength st !! "d1") as [r5|]; [|discriminate].
  cbn in Hb. injection Hb as <- <-.
  split.
  - match goal with
    | |- _ <= Rmax (Rmax (Rmax (Rmax ?a ?b) ?c) ?d) ?e =>
        exact (proj1 (max5_upper a b c d e))
    end.
  - match goal with
    | |- Rmin (Rmin (Rmin (Rmin ?a ?b) ?c) ?d) ?e <= _ =>
        exact (proj1 (min5_lower a b c d e))
    end.
Qed.

(** X18.  On a tick that returns a bar and whose boundary is not
    inverted, the close lies within the band of every timeframe: within the
    one-second strength of the price entering the tick, so that one tick
    moves the price by at most that fraction, and within the band of each
    anchor as the tick leaves it. *)
Theorem close_within_every_band (st : SyntheticStream) (now : datetime) (z : R)
    (st' : SyntheticStream) (bar : Bar) (lo hi : R) :
  _generate_one_second st now z = (st', Ok bar) ->
  tick_boundary st now = Ok (lo, hi) ->
  lo <= hi ->
  (forall r, reversion_strength st !! "s1" = Some r -> in_band (p st) r (p st'))
  /\ within_bands st'.
Proof.
  intros Ht Hb Hle.
  destruct (tick_ok_inv _ _ _ _ _ Ht) as (sigma & cand & lo' & hi' & _ & _ & Hb' & He & _).
  rewrite Hb in Hb'. injection Hb' as <- <-.
  pose proof (enforce_within cand lo hi (boundary_trend st) Hle) as Hw.
  rewrite He in Hw. cbn [fst] in Hw.
  destruct (update_anchors_frame st now) as (Hp & Hrs & _).
  split.
  - intros r Hr. unfold tick_boundary in Hb.
    destruct (boundary_s1 (update_anchors st now) lo hi r Hb) as [H1 H2];
      [now rewrite Hrs|].
    rewrite Hp in H1, H2. unfold in_band. lra.
  - pose proof (tick_anchors st now z) as Ha. rewrite Ht in Ha.
    exact (boundary_within_bands _ _ _ _ Hb Ha Hw).
Qed.

Lemma close_within_every_band_witness :
  exists st' bar,
    _generate_one_second scenario_stream noon_30s 0 = (st', Ok bar)
    /\ within_bands st'.
Proof.
  destruct (tick_total scenario_stream noon_30s 0 scenario_well_formed
              (scenario_in_range noon_30s 0 ltac:(lra))) as (st' & bar & Ht & _).
  exists st', bar. split; [exact Ht|].
  apply (close_within_every_band scenario_stream noon_30s 0 st' bar 99 101 Ht
           scenario_boundary).
  lra.
Defined.

(** ** The variance stays bounded *)

Lemma ln_upper (y : R) : 0 < y -> ln y <= y - 1.
Proof.
  intros Hy. destruct (Rle_or_lt (ln y) (y - 1)) as [H|H]; [exact H|].
  apply exp_increasing in H. rewrite exp_ln in H by assumption.
  pose proof (exp_ineq1_le (y - 1)). lra.
Qed.

Lemma ln_lower (y : R) : 0 < y -> 1 - / y <= ln y.
Proof.
  intros Hy. pose proof (Rinv_0_lt_compat y Hy) as Hi.
  pose proof (ln_upper (/ y) Hi) as H. rewrite ln_Rinv in H by assumption. lra.
Qed.

(** The log return of a close within the fraction [r] of the open. *)
Lemma log_return_bounded (c o r : R) :
  0 < o -> 0 < r < 1 -> in_band o r c ->
  - return_bound r <= ln (c / o) <= return_bound r.
Proof.
  intros Ho Hr [Hlo Hhi]. unfold return_bound.
  assert (Hy : 1 - r <= c / o <= 1 + r).
  { split.
    - apply (Rmult_le_reg_r o); [exact Ho|]. unfold Rdiv.
      rewrite Rmult_assoc, Rinv_l by lra. lra.
    - apply (Rmult_le_reg_r o); [exact Ho|]. unfold Rdiv.
      rewrite Rmult_assoc, Rinv_l by lra. lra. }
  assert (Hpos : 0 < c / o) by lra.
  pose proof (ln_upper _ Hpos) as Hup. pose proof (ln_lower _ Hpos) as Hdown.
  assert (Hinv : / (c / o) <= / (1 - r)) by (apply Rinv_le_contravar; lra).
  assert (Hrho : r / (1 - r) = / (1 - r) - 1) by (field; lra).
  assert (Hge : r <= r / (1 - r)).
  { rewrite Hrho. assert (1 <= / (1 - r)).
    { rewrite <- Rinv_1 at 1. apply Rinv_le_contravar; lra. }
    nra. }
  rewrite Hrho in *. split; lra.
Qed.

Lemma garch_recursion_bounded (r0 v rho M : R) :
  - rho <= r0 <= rho ->
  v <= M ->
  GARCH_OMEGA + (GARCH_ALPHA + GARCH_GAMMA) * rho ^ 2 <= (1 - GARCH_BETA) * M ->
  garch_recursion r0 v <= M.
Proof.
  unfold garch_recursion, GARCH_OMEGA, GARCH_ALPHA, GARCH_BETA, GARCH_GAMMA.
  intros Hr Hv Hcap.
  assert (0 <= r0 ^ 2 <= rho ^ 2) by nra.
  case_decide; lra.
Qed.

Lemma variance_cap_spec (r M : R) :
  variance_cap r <= M ->
  GARCH_OMEGA + (GARCH_ALPHA + GARCH_GAMMA) * return_bound r ^ 2 <= (1 - GARCH_BETA) * M.
Proof.
  unfold variance_cap, GARCH_BETA. intros H.
  apply (Rmult_le_compat_r (1 - 0.88)) in H; [|lra].
  unfold Rdiv in H. rewrite Rmult_assoc, Rinv_l in H by lra. lra.
Qed.

Lemma variance_cap_return (r M : R) :
  variance_cap r <= M -> return_bound r ^ 2 <= M.
Proof.
  intros H%variance_cap_spec.
  unfold GARCH_OMEGA, GARCH_ALPHA, GARCH_BETA, GARCH_GAMMA in H. lra.
Qed.

(** A variance level that keeps the exponent in range for variates up to a
    [B] that is not negative is itself far within the range of floats. *)
Lemma exponent_in_range_variance (M B : R) :
  0 <= M -> 0 <= B -> exponent_in_range M B -> M <= DBL_MAX.
Proof.
  unfold exponent_in_range. intros HM HB H.
  pose proof (sqrt_pos M) as Hs.
  assert (Hs' : sqrt M <= 5672) by nra.
  rewrite <- (sqrt_sqrt M HM).
  apply Rle_trans with 1e300; [nra | apply DBL_MAX_large].
Qed.

(** A calm stream is in range for every variate up to [B]. *)
Lemma calm_in_range (r M B : R) (st : SyntheticStream) (now : datetime) (z : R) :
  variance_cap r <= M -> 0 <= B -> exponent_in_range M B ->
  calm r M st -> z <= B ->
  tick_in_range st now z.
Proof.
  intros Hcap HB Hexp [Hwf Hwb Hs1 Hret Hgv Htr] Hz.
  pose proof (variance_cap_return r M Hcap) as Hrho.
  assert (HM : 0 <= M) by nra.
  pose proof (garch_recursion_omega (prev_return st) _ (wf_gv _ Hwf)) as Hnv.
  unfold GARCH_OMEGA in Hnv.
  assert (Hrec : garch_recursion (prev_return st) (garch_variance st) <= M).
  { apply (garch_recursion_bounded _ _ (return_bound r)); try assumption.
    now apply variance_cap_spec. }
  split.
  - apply Rle_trans with M; [nra | now apply (exponent_in_range_variance M B)].
  - apply (tick_exponent_in_range st now z (sqrt M) B); try assumption.
    + apply sqrt_lower; lra.
    + now rewrite sqrt_sqrt.
Qed.

Lemma tick_calm (r M B : R) (st : SyntheticStream) (now : datetime) (z : R) :
  variance_cap r <= M -> 0 <= B -> exponent_in_range M B ->
  calm r M st -> z <= B ->
  exists st' bar, _generate_one_second st now z = (st', Ok bar) /\ calm r M st'.
Proof.
  intros Hcap HB Hexp Hcalm Hz.
  pose proof (calm_in_range r M B st now z Hcap HB Hexp Hcalm Hz) as Hin.
  destruct Hcalm as [Hwf Hwb Hs1 Hret Hgv Htr].
  destruct (tick_total st now z Hwf Hin) as (st' & bar & Ht & Hwf').
  exists st', bar. split; [exact Ht|].
  destruct (tick_within_bands st now z Hwf Hwb) as (lo & hi & Hb & Hle & _ & _ & Hwb').
  pose proof (tick_trend_in_range st now z Htr) as Htr'.
  rewrite Ht in Hwb', Htr'. cbn [fst] in Hwb', Htr'.
  destruct (tick_ok_inv _ _ _ _ _ Ht) as (sigma & cand & lo' & hi' & Hg & _ & Hb' & He & Hl & _).
  rewrite Hb in Hb'. injection Hb' as <- <-.
  pose proof (enforce_within cand lo hi (boundary_trend st) Hle) as Hw.
  rewrite He in Hw. cbn [fst] in Hw.
  destruct (update_anchors_frame st now) as (Hp & Hrs & _).
  destruct (boundary_s1 (update_anchors st now) lo hi r Hb) as [H1 H2]; [now rewrite Hrs|].
  rewrite Hp in H1, H2.
  assert (Hr01 : 0 < r < 1).
  { destruct (well_formed_strengths st Hwf) as (r1 & _ & _ & _ & _ & [E1 ?] & _).
    congruence. }
  pose proof (wf_p _ Hwf) as Hpos. pose proof (wf_p _ Hwf') as Hpos'.
  rewrite log_return_positive in Hl by assumption. injection Hl as Hl.
  pose proof (tick_anchors st now z) as [_ _ _ _ Ars]. rewrite Ht in Ars. cbn [fst] in Ars.
  split; try assumption.
  - now rewrite Ars, Hrs.
  - rewrite <- Hl. apply log_return_bounded; try assumption. unfold in_band. lra.
  - destruct (garch_ok_inv _ _ _ _ Hg) as (_ & -> & _).
    apply (garch_recursion_bounded _ _ (return_bound r)); try assumption.
    now apply variance_cap_spec.
Qed.

Lemma run_calm (r M B : R) (ticks : list (datetime * R)) (st : SyntheticStream) :
  variance_cap r <= M -> 0 <= B -> exponent_in_range M B ->
  calm r M st -> variates_below B ticks ->
  (run st ticks).2 = None
  /\ length (run st ticks).1.1 = length ticks
  /\ calm r M (run st ticks).1.2.
Proof.
  intros Hcap HB Hexp. revert st.
  induction ticks as [|[now z] rest IH]; intros st Hcalm Hz.
  - cbn. auto.
  - apply Forall_cons in Hz as [Hz Hrest]. cbn [snd] in Hz.
    destruct (tick_calm r M B st now z Hcap HB Hexp Hcalm Hz) as (st' & bar & Ht & Hcalm').
    specialize (IH st' Hcalm' Hrest). cbn [run]. rewrite Ht.
    destruct (run st' rest) as [[bars st_end] e]. cbn [fst snd length] in *.
    destruct IH as (-> & -> & Hend). auto.
Qed.

(** X19.  The variance cannot run away.  Let [r] be the one-second
    strength of a stream in regular operation, whose last return is within
    [r / (1 - r)] and whose variance is at most [M], for an [M] at or above the
    cap [(omega + (alpha + gamma) (r / (1 - r))^2) / (1 - beta)], and let the
    normal variates be at most [B >= 0], with [1.25 * sqrt M * (B + 0.1) <= 709]
    so that [math.exp] stays in range.  Then along every run no tick raises,
    every return stays within [r / (1 - r)], the variance stays at most [M],
    and the sigma of the next tick is at most [sqrt M]. *)
Theorem variance_stays_bounded (ticks : list (datetime * R)) (st : SyntheticStream)
    (r M B : R) :
  variance_cap r <= M ->
  0 <= B ->
  exponent_in_range M B ->
  calm r M st ->
  variates_below B ticks ->
  (run st ticks).2 = None
  /\ length (run st ticks).1.1 = length ticks
  /\ calm r M (run st ticks).1.2
  /\ exists sigma, tick_sigma (run st ticks).1.2 = Ok sigma /\ sigma <= sqrt M.
Proof.
  intros Hcap HB Hexp Hcalm Hz.
  destruct (run_calm r M B ticks st Hcap HB Hexp Hcalm Hz) as (Hnone & Hlen & Hend).
  split; [exact Hnone|]. split; [exact Hlen|]. split; [exact Hend|].
  pose proof (calm_in_range r M B _ noon_30s 0 Hcap HB Hexp Hend HB) as [Hr _].
  destruct Hend as [Hwf _ _ Hret Hgv _].
  rewrite tick_sigma_value by (first [exact Hr | apply (wf_gv _ Hwf)]).
  eexists. split; [reflexivity|]. apply sqrt_le_1_alt.
  apply (garch_recursion_bounded _ _ (return_bound r)); try assumption.
  now apply variance_cap_spec.
Qed.

(** The strength a concrete state holds for a timeframe. *)
Ltac known_strength v :=
  match goal with
  | Hr : ?m !! ?k = Some ?r |- _ =>
      let E := fresh "E" in
      assert (E : m !! k = Some v) by reflexivity;
      rewrite E in Hr; injection Hr as <-
  end.

Lemma scenario_calm : calm 0.01 1.1e-4 scenario_stream.
Proof.
  assert (Hrho : return_bound 0.01 = 1 / 99) by (unfold return_bound; lra).
  split.
  - exact scenario_well_formed.
  - destruct (well_formed_strengths _ scenario_well_formed)
      as (r1 & r2 & r3 & r4 & r5 & _ & [E2 ?] & [E3 ?] & [E4 ?] & [E5 ?]).
    split; intros r Hr; cbn [p d1_open h1_open m5_open m1_open scenario_stream];
      apply in_band_centre; try lra; same_strength r; lra.
  - reflexivity.
  - rewrite Hrho. cbn [prev_return scenario_stream]. lra.
  - cbn [garch_variance scenario_stream]. lra.
  - right. left. reflexivity.
Qed.

Lemma clamped_calm : calm 0.01 1.1e-4 clamped_stream.
Proof.
  assert (Hrho : return_bound 0.01 = 1 / 99) by (unfold return_bound; lra).
  split.
  - exact clamped_well_formed.
  - split; intros r Hr; cbn [p d1_open h1_open m5_open m1_open clamped_stream];
      unfold in_band;
      [known_strength 0.025 | known_strength 0.035 | known_strength 0.05
      | known_strength 0.05]; lra.
  - reflexivity.
  - rewrite Hrho. cbn [prev_return clamped_stream]. lra.
  - cbn [garch_variance clamped_stream]. lra.
  - left. reflexivity.
Qed.

Lemma scenario_cap : variance_cap 0.01 <= 1.1e-4.
Proof.
  assert (Hrho : return_bound 0.01 = 1 / 99) by (unfold return_bound; lra).
  unfold variance_cap. rewrite Hrho.
  unfold GARCH_OMEGA, GARCH_ALPHA, GARCH_BETA, GARCH_GAMMA. lra.
Qed.

(** With the variance at most 1.1e-4, variates up to 1000 keep the
    exponent in range. *)
Lemma scenario_exponent : exponent_in_range 1.1e-4 1000.
Proof.
  unfold exponent_in_range.
  assert (sqrt 1.1e-4 <= 0.0105) by (apply sqrt_upper; lra).
  pose proof (sqrt_pos 1.1e-4). nra.
Qed.

Lemma scenario_steady : steady 1.1e-4 scenario_stream.
Proof. exists 0.01. split; [exact scenario_cap | exact scenario_calm]. Qed.

Lemma clamped_steady : steady 1.1e-4 clamped_stream.
Proof. exists 0.01. split; [exact scenario_cap | exact clamped_calm]. Qed.

Lemma variance_stays_bounded_witness :
  (run scenario_stream [(noon_30s, 0); (noon_1min, 1)]).2 = None
  /\ length (run scenario_stream [(noon_30s, 0); (noon_1min, 1)]).1.1 = 2%nat
  /\ calm 0.01 1.1e-4 (run scenario_stream [(noon_30s, 0); (noon_1min, 1)]).1.2
  /\ exists sigma,
       tick_sigma (run scenario_stream [(noon_30s, 0); (noon_1min, 1)]).1.2 = Ok sigma
       /\ sigma <= sqrt 1.1e-4.
Proof.
  apply (variance_stays_bounded [(noon_30s, 0); (noon_1min, 1)] scenario_stream
           0.01 1.1e-4 1000 scenario_cap ltac:(lra) scenario_exponent scenario_calm).
  repeat constructor; cbn; lra.
Defined.

(** * The main loop *)

(** ** The history of a symbol *)

Lemma append_bar_under (bars : list Bar) (b : Bar) :
  (Z.of_nat (length bars) < HISTORY_LIMIT)%Z -> append_bar bars b = bars ++ [b].
Proof.
  intros Hlen. unfold append_bar. rewrite length_app. cbn [length].
  case_decide; [lia | reflexivity].
Qed.

Lemma append_bar_full (bars : list Bar) (b : Bar) :
  (HISTORY_LIMIT <= Z.of_nat (length bars))%Z -> append_bar bars b = tail (bars ++ [b]).
Proof.
  intros Hlen. unfold append_bar. rewrite length_app. cbn [length].
  case_decide; [reflexivity | lia].
Qed.

Lemma append_bar_length (bars : list Bar) (b : Bar) :
  length (append_bar bars b)
  = if decide (Z.of_nat (length bars) < HISTORY_LIMIT)%Z then S (length bars)
    else length bars.
Proof.
  case_decide as Hlen.
  - rewrite append_bar_under by assumption. rewrite length_app. cbn. lia.
  - rewrite append_bar_full by lia. destruct bars; cbn; [reflexivity|].
    rewrite length_app. cbn. lia.
Qed.

(** X6.  Appending bars one by one keeps a sliding window: after the bars
    [new_bars] the history of a symbol holds the last [max(limit, n)] bars of
    the old history followed by the new bars, [n] being the length of the old
    history.  So a history within the limit of 259200 bars stays within it
    and drops its oldest bars first, and a longer one (a history file from
    elsewhere) keeps its length: each turn removes one bar only. *)
Theorem history_sliding_window (bars new_bars : list Bar) :
  fold_left append_bar new_bars bars
  = drop (length (bars ++ new_bars) - Nat.max (Z.to_nat HISTORY_LIMIT) (length bars))
      (bars ++ new_bars)
  /\ length (fold_left append_bar new_bars bars)
     = Nat.min (length bars + length new_bars)
         (Nat.max (Z.to_nat HISTORY_LIMIT) (length bars)).
Proof.
  assert (Hpos : (0 < HISTORY_LIMIT)%Z) by (unfold HISTORY_LIMIT; lia).
  revert bars. induction new_bars as [|b rest IH]; intros bars.
  - cbn [fold_left]. rewrite app_nil_r.
    replace (length bars - _)%nat with 0%nat by lia. split; [reflexivity | cbn; lia].
  - cbn [fold_left]. destruct (IH (append_bar bars b)) as [IH1 IH2].
    pose proof (append_bar_length bars b) as Hlen.
    split; [rewrite IH1 | rewrite IH2]; clear IH IH1 IH2.
    + destruct (decide (Z.of_nat (length bars) < HISTORY_LIMIT)%Z) as [Hu|Hu].
      * rewrite append_bar_under by assumption.
        rewrite <- app_assoc. cbn [app]. rewrite !length_app. cbn [length].
        f_equal. lia.
      * rewrite append_bar_full by lia.
        destruct bars as [|b0 bars]; [cbn in Hu; lia|].
        cbn [length] in Hu.
        cbn [app tail]. rewrite !length_app. cbn [length].
        rewrite !length_app. cbn [length].
        replace (S (length bars + S (length rest))
                 - Nat.max (Z.to_nat HISTORY_LIMIT) (S (length bars)))%nat
          with (S (length bars + 1 + length rest
                   - Nat.max (Z.to_nat HISTORY_LIMIT) (length bars + 1)))%nat by lia.
        cbn [drop]. rewrite <- app_assoc. reflexivity.
    + rewrite Hlen. cbn [length]. case_decide; lia.
Qed.

(** ** One second for all streams *)

Section GenerateAll.

Variable now : datetime.
Variable z_of : string -> R.

Lemma generate_all_cons_ok (symbol : string) (stream stream' : SyntheticStream) (bar : Bar)
    (rest : list (string * SyntheticStream)) (h : gmap string (list Bar)) :
  _generate_one_second stream now (z_of symbol) = (stream', Ok bar) ->
  generate_all ((symbol, stream) :: rest) h now z_of
  = let '(rest', h', e) :=
      generate_all rest (<[symbol := append_bar (default [] (h !! symbol)) bar]> h)
        now z_of in
    ((symbol, stream') :: rest', h', e).
Proof. intros Ht. cbn [generate_all]. rewrite Ht. reflexivity. Qed.

(** Sequential composition with early exit. *)
Lemma generate_all_app (pre post : list (string * SyntheticStream))
    (h : gmap string (list Bar)) :
  generate_all (pre ++ post) h now z_of
  = match generate_all pre h now z_of with
    | (pre', h1, None) =>
        let '(post', h2, e) := generate_all post h1 now z_of in (pre' ++ post', h2, e)
    | (pre', h1, Some e) => (pre' ++ post, h1, Some e)
    end.
Proof.
  revert h. induction pre as [|[symbol stream] pre IH]; intros h.
  - cbn. destruct (generate_all post h now z_of) as [[post' h2] e]. reflexivity.
  - cbn [app generate_all].
    destruct (_generate_one_second stream now (z_of symbol)) as [stream' [bar|e]];
      [|reflexivity].
    cbv zeta. rewrite IH.
    destruct (generate_all pre _ now z_of) as [[pre' h1] [e|]]; [reflexivity|].
    destruct (generate_all post h1 now z_of) as [[post' h2] e]. reflexivity.
Qed.

(** Without an exception every stream was ticked and returned a bar. *)
Lemma generate_all_states (sts sts' : list (string * SyntheticStream))
    (h h' : gmap string (list Bar)) :
  generate_all sts h now z_of = (sts', h', None) ->
  sts' = ticked now z_of <$> sts /\ Forall (returns_bar now z_of) sts.
Proof.
  revert h sts'. induction sts as [|[symbol stream] rest IH]; intros h sts'.
  - cbn. intros [= <- _]. split; [reflexivity | constructor].
  - cbn [generate_all]. unfold ticked at 1, returns_bar at 1. cbn [fmap list_fmap fst snd].
    destruct (_generate_one_second stream now (z_of symbol)) as [stream' [bar|e]] eqn:Ht;
      [|intros [=]].
    cbv zeta.
    destruct (generate_all rest _ now z_of) as [[rest' h1] e] eqn:Hr.
    intros [= <- <- ->].
    destruct (IH _ _ Hr) as [-> Hall].
    split; [reflexivity|]. constructor; [|exact Hall].
    unfold returns_bar. cbn [fst snd]. rewrite Ht. eauto.
Qed.

(** The history of a symbol that has no stream is not touched. *)
Lemma generate_all_history_other (sts sts' : list (string * SyntheticStream))
    (h h' : gmap string (list Bar)) (e : option exn) (k : string) :
  generate_all sts h now z_of = (sts', h', e) ->
  k ∉ sts.*1 ->
  h' !! k = h !! k.
Proof.
  revert h sts'. induction sts as [|[symbol stream] rest IH]; intros h sts'.
  - cbn. intros [= _ <- _] _. reflexivity.
  - cbn [generate_all fmap list_fmap fst]. intros Hg Hk.
    apply not_elem_of_cons in Hk as [Hne Hk].
    destruct (_generate_one_second stream now (z_of symbol)) as [stream' [bar|e0]].
    + cbv zeta in Hg.
      destruct (generate_all rest _ now z_of) as [[rest' h1] e1] eqn:Hr.
      injection Hg as _ <- <-.
      rewrite (IH _ _ Hr Hk). rewrite lookup_insert_ne by congruence. reflexivity.
    + injection Hg as _ <- _. reflexivity.
Qed.

(** With distinct symbols, the history of each symbol gains the bar of its
    own stream. *)
Lemma generate_all_history (sts sts' : list (string * SyntheticStream))
    (h h' : gmap string (list Bar)) (k : string) (v : SyntheticStream) :
  generate_all sts h now z_of = (sts', h', None) ->
  NoDup sts.*1 ->
  (k, v) ∈ sts ->
  exists bar,
    (_generate_one_second v now (z_of k)).2 = Ok bar
    /\ h' !! k = Some (append_bar (default [] (h !! k)) bar)
    /\ stream_of k sts' = Some (_generate_one_second v now (z_of k)).1.
Proof.
  revert h sts'. induction sts as [|[symbol stream] rest IH]; intros h sts' Hg Hnd Hin.
  - now apply elem_of_nil in Hin.
  - cbn [fmap list_fmap fst] in Hnd. apply NoDup_cons in Hnd as [Hfresh Hnd].
    cbn [generate_all] in Hg.
    destruct (_generate_one_second stream now (z_of symbol)) as [stream' [bar|e0]] eqn:Ht;
      [|discriminate].
    cbv zeta in Hg.
    destruct (generate_all rest _ now z_of) as [[rest' h1] e1] eqn:Hr.
    injection Hg as <- <- ->.
    apply elem_of_cons in Hin as [[= -> ->]|Hin].
    + exists bar. rewrite Ht. split; [reflexivity|]. split.
      * rewrite (generate_all_history_other _ _ _ _ _ symbol Hr Hfresh).
        now rewrite lookup_insert_eq.
      * cbn. now rewrite decide_True.
    + assert (Hne : symbol <> k).
      { intros ->. apply Hfresh. apply list_elem_of_fmap. now exists (k, v). }
      destruct (IH _ _ Hr Hnd Hin) as (bar' & Hb & Hh & Hs).
      exists bar'. split; [exact Hb|]. split.
      * rewrite Hh. now rewrite lookup_insert_ne.
      * cbn. now rewrite decide_False.
Qed.

(** Steady streams all return a bar and stay steady, with variates up to
    [B]. *)
Lemma generate_all_steady (M B : R) (sts : list (string * SyntheticStream))
    (h : gmap string (list Bar)) :
  0 <= B -> exponent_in_range M B ->
  (forall s, z_of s <= B) ->
  Forall (fun sv => steady M sv.2) sts ->
  exists sts' h',
    generate_all sts h now z_of = (sts', h', None)
    /\ Forall (fun sv => steady M sv.2) sts'
    /\ sts'.*1 = sts.*1.
Proof.
  intros HB Hexp Hz.
  revert h. induction sts as [|[symbol stream] rest IH]; intros h Hst.
  - exists [], h. repeat split; constructor.
  - apply Forall_cons in Hst as [(r & Hcap & Hcalm) Hrest]. cbn [snd] in Hcalm.
    destruct (tick_calm r M B stream now (z_of symbol) Hcap HB Hexp Hcalm (Hz symbol))
      as (stream' & bar & Ht & Hcalm').
    destruct (IH (<[symbol := append_bar (default [] (h !! symbol)) bar]> h) Hrest)
      as (rest' & h' & Hr & Hstr & Hk).
    exists ((symbol, stream') :: rest'), h'.
    rewrite (generate_all_cons_ok _ _ _ _ _ _ Ht), Hr.
    split; [reflexivity|]. split; [constructor; [now exists r | exact Hstr]|].
    cbn. now rewrite Hk.
Qed.

End GenerateAll.

(** ** How a tick fails *)

Lemma tick_sqrt_raises (st : SyntheticStream) (now : datetime) (z : R) :
  prev_return st ^ 2 <= DBL_MAX ->
  garch_recursion (prev_return st) (garch_variance st) < 0 ->
  _generate_one_second st now z = (update_anchors st now, Raise ValueError).
Proof.
  intros Hr Hnv. apply tick_garch_raise. now apply garch_raises.
Qed.

(** X7.  When the variance recursion has a result (the square of the last
    return is in range) and it is negative, the tick raises [ValueError] in
    [math.sqrt], before anything but the anchors has been written: no bar, and
    price, variance, return and trend are as before. *)
Theorem negative_recursion_raises (st : SyntheticStream) (now : datetime) (z : R) :
  prev_return st ^ 2 <= DBL_MAX ->
  garch_recursion (prev_return st) (garch_variance st) < 0 ->
  _generate_one_second st now z = (update_anchors st now, Raise ValueError)
  /\ p (update_anchors st now) = p st
  /\ garch_variance (update_anchors st now) = garch_variance st
  /\ prev_return (update_anchors st now) = prev_return st
  /\ boundary_trend (update_anchors st now) = boundary_trend st.
Proof.
  intros Hr Hnv.
  destruct (update_anchors_frame st now) as (Hp & _ & Hgv & Hpr & Hbt).
  split; [now apply tick_sqrt_raises | auto].
Qed.

Lemma negative_variance_recursion :
  garch_recursion (prev_return negative_variance_stream)
    (garch_variance negative_variance_stream) < 0.
Proof.
  change (garch_recursion 0 (-1) < 0).
  unfold garch_recursion, GARCH_OMEGA, GARCH_ALPHA, GARCH_BETA, GARCH_GAMMA.
  case_decide; lra.
Qed.

Lemma negative_recursion_raises_witness :
  _generate_one_second negative_variance_stream noon_30s 0
  = (update_anchors negative_variance_stream noon_30s, Raise ValueError).
Proof.
  apply (negative_recursion_raises negative_variance_stream noon_30s 0).
  - exact zero_return_in_range.
  - exact negative_variance_recursion.
Defined.

(** The bands raise the [KeyError] of the first timeframe, in the order
    s1, m1, m5, h1, d1, that the strengths do not hold. *)
Lemma effective_boundary_missing (st : SyntheticStream) (k : string)
    (pre post : list string) :
  timeframes = pre ++ k :: post ->
  Forall (fun tf => is_Some (reversion_strength st !! tf)) pre ->
  reversion_strength st !! k = None ->
  effective_boundary st = Raise (KeyError k).
Proof.
  intros Htf Hpre Hk. unfold effective_boundary, bands, band.
  unfold timeframes in Htf.
  repeat (destruct pre as [|? pre];
          [injection Htf as <- <-; rewrite ?Hk; reflexivity
          | injection Htf as <- Htf;
            apply Forall_cons in Hpre as [[? ->] Hpre]; cbn [mbind result_bind]]).
  destruct pre; discriminate.
Qed.

(** X8.  When the strengths of a stream lack a timeframe, the tick raises
    the [KeyError] of the first missing one, in the order s1, m1, m5, h1, d1,
    once the anchors and the variance have been written (step 2 has returned:
    the square of the last return is in range and the recursion not negative):
    no bar, and price, return and trend are as before. *)
Theorem missing_strength_raises (st : SyntheticStream) (now : datetime) (z : R)
    (k : string) (pre post : list string) :
  timeframes = pre ++ k :: post ->
  Forall (fun tf => is_Some (reversion_strength st !! tf)) pre ->
  reversion_strength st !! k = None ->
  prev_return st ^ 2 <= DBL_MAX ->
  0 <= garch_recursion (prev_return st) (garch_variance st) ->
  let st' := (_generate_one_second st now z).1 in
  (_generate_one_second st now z).2 = Raise (KeyError k)
  /\ garch_variance st' = garch_recursion (prev_return st) (garch_variance st)
  /\ p st' = p st
  /\ prev_return st' = prev_return st
  /\ boundary_trend st' = boundary_trend st.
Proof.
  intros Htf Hpre Hk Hr Hnv.
  destruct (update_anchors_frame st now) as (Hp & Hrs & Hgv & Hpr & Hbt).
  assert (Hb : effective_boundary (update_anchors st now) = Raise (KeyError k)).
  { apply (effective_boundary_missing _ k pre post Htf); now rewrite Hrs. }
  unfold _generate_one_second.
  rewrite Hpr, Hgv, (garch_returns _ _ Hr Hnv), effective_boundary_set_garch_variance, Hb.
  cbn. auto.
Qed.

Lemma missing_strength_raises_witness :
  (_generate_one_second short_strengths_stream noon_30s 0).2 = Raise (KeyError "m5").
Proof.
  apply (missing_strength_raises short_strengths_stream noon_30s 0 "m5"
           ["s1"; "m1"] ["h1"; "d1"]).
  - reflexivity.
  - repeat constructor; eexists; reflexivity.
  - reflexivity.
  - exact zero_return_in_range.
  - change (0 <= garch_recursion 0 1e-5).
    pose proof (garch_recursion_omega 0 1e-5 ltac:(lra)) as H.
    unfold GARCH_OMEGA in H. lra.
Defined.

(** ** Overflow *)

(** X23.  When the square of the last return is beyond the largest float,
    the tick raises [OverflowError] in [prev_return ** 2], before anything but
    the anchors has been written: no bar, and price, variance, return and
    trend are as before; so the same exception ends every later tick. *)
Theorem square_overflow_raises (st : SyntheticStream) (now : datetime) (z : R) :
  DBL_MAX < prev_return st ^ 2 ->
  let st' := (_generate_one_second st now z).1 in
  _generate_one_second st now z = (update_anchors st now, Raise OverflowError)
  /\ p st' = p st
  /\ garch_variance st' = garch_variance st
  /\ prev_return st' = prev_return st
  /\ boundary_trend st' = boundary_trend st
  /\ forall now' z', (_generate_one_second st' now' z').2 = Raise OverflowError.
Proof.
  intros Hr. cbv zeta. rewrite (tick_pow_overflow st now z Hr). cbn [fst].
  destruct (update_anchors_frame st now) as (Hp & _ & Hgv & Hpr & Hbt).
  split; [reflexivity|]. repeat (split; [assumption|]).
  intros now' z'. rewrite tick_pow_overflow; [reflexivity | now rewrite Hpr].
Qed.

Lemma square_overflow_raises_witness :
  _generate_one_second overflow_stream noon_30s 0
  = (update_anchors overflow_stream noon_30s, Raise OverflowError).
Proof.
  apply (square_overflow_raises overflow_stream noon_30s 0).
  exact huge_return_overflows.
Defined.

(** X24.  When the exponent of a tick is 1024 or more, the tick raises
    [OverflowError] in [math.exp], once the anchors and the variance have been
    written and the bands computed: no bar, and price, return and trend are as
    before. *)
Theorem exponent_overflow_raises (st : SyntheticStream) (now : datetime) (z lo hi : R) :
  prev_return st ^ 2 <= DBL_MAX ->
  0 <= garch_recursion (prev_return st) (garch_variance st) ->
  tick_boundary st now = Ok (lo, hi) ->
  1024 <= tick_exponent st now z ->
  let st' := (_generate_one_second st now z).1 in
  (_generate_one_second st now z).2 = Raise OverflowError
  /\ garch_variance st' = garch_recursion (prev_return st) (garch_variance st)
  /\ p st' = p st
  /\ prev_return st' = prev_return st
  /\ boundary_trend st' = boundary_trend st.
Proof.
  intros Hr Hnv Hb He. cbv zeta.
  rewrite (tick_exp_overflow st now z lo hi Hr Hnv Hb (exp_overflows _ He)).
  destruct (update_anchors_frame st now) as (Hp & _ & _ & Hpr & Hbt).
  cbn. auto.
Qed.

Lemma hot_stream_well_formed : well_formed hot_stream.
Proof. unfold hot_stream. solve_well_formed. Qed.

Lemma hot_stream_boundary : tick_boundary hot_stream noon_30s = Ok (99, 101).
Proof.
  unfold tick_boundary, update_anchors, hot_stream. cbn [second noon_30s Z.eqb].
  solve_boundary.
Qed.

Lemma hot_stream_recursion : 938 * 938 <= garch_recursion 0 1e6.
Proof.
  unfold garch_recursion, GARCH_OMEGA, GARCH_ALPHA, GARCH_BETA, GARCH_GAMMA.
  case_decide; lra.
Qed.

(** At noon, with the variate 1, the exponent of [hot_stream] is about
    1172. *)
Lemma hot_stream_exponent : 1024 <= tick_exponent hot_stream noon_30s 1.
Proof.
  unfold tick_exponent, total_return.
  change (minute_of_day noon_30s) with 720%Z. rewrite seasonality_720.
  change (prev_return hot_stream) with 0. change (garch_variance hot_stream) with 1e6.
  change (boundary_trend hot_stream) with 0%Z.
  pose proof (sqrt_lower _ 938 ltac:(lra) hot_stream_recursion) as Hs.
  pose proof (Rmax_r 1e-9 (sqrt (garch_recursion 0 1e6))).
  nra.
Qed.

Lemma exponent_overflow_raises_witness :
  well_formed hot_stream
  /\ (_generate_one_second hot_stream noon_30s 1).2 = Raise OverflowError.
Proof.
  split; [exact hot_stream_well_formed|].
  apply (exponent_overflow_raises hot_stream noon_30s 1 99 101).
  - exact zero_return_in_range.
  - pose proof hot_stream_recursion. change (0 <= garch_recursion 0 1e6). lra.
  - exact hot_stream_boundary.
  - exact hot_stream_exponent.
Defined.

(** ** The zero price *)

Lemma zero_priced_strengths (st : SyntheticStream) :
  zero_priced st ->
  exists r_s1 r_m1 r_m5 r_h1 r_d1,
    (reversion_strength st !! "s1" = Some r_s1 /\ 0 < r_s1 < 1)
    /\ (reversion_strength st !! "m1" = Some r_m1 /\ 0 < r_m1 < 1)
    /\ (reversion_strength st !! "m5" = Some r_m5 /\ 0 < r_m5 < 1)
    /\ (reversion_strength st !! "h1" = Some r_h1 /\ 0 < r_h1 < 1)
    /\ (reversion_strength st !! "d1" = Some r_d1 /\ 0 < r_d1 < 1).
Proof.
  intros [_ _ _ _ _ Hrs _]. unfold timeframes in Hrs.
  repeat match goal with
         | H : Forall _ (_ :: _) |- _ => apply Forall_cons_1 in H; destruct H as [[? ?] H]
         end.
  eauto 10.
Qed.

Lemma update_anchors_zero_priced (st : SyntheticStream) (now : datetime) :
  zero_priced st -> zero_priced (update_anchors st now).
Proof.
  intros [Hp Hd1 Hh1 Hm5 Hm1 Hrs Hgv].
  destruct (update_anchors_frame st now) as (Ep & Ers & Egv & _ & _).
  destruct (update_anchors_values st now) as (E1 & E5 & Eh & Ed). cbv zeta in *.
  split; rewrite ?Ep, ?Ers, ?Egv, ?E1, ?E5, ?Eh, ?Ed; try assumption;
    match goal with |- context [if ?b then _ else _] => destruct b end; lra.
Qed.

(** At price zero the upper bound is zero. *)
Lemma zero_priced_boundary (st : SyntheticStream) :
  zero_priced st -> exists lo, effective_boundary st = Ok (lo, 0).
Proof.
  intros Hz.
  destruct (zero_priced_strengths st Hz)
    as (r1 & r2 & r3 & r4 & r5 & [H1 ?] & [H2 ?] & [H3 ?] & [H4 ?] & [H5 ?]).
  destruct Hz as [Hp Hd1 Hh1 Hm5 Hm1 _ _].
  eexists. rewrite (effective_boundary_value st _ _ _ _ _ H1 H2 H3 H4 H5).
  do 2 f_equal. rewrite Hp.
  match goal with
  | |- Rmin (Rmin (Rmin (Rmin ?a ?b) ?c) ?d) ?e = _ =>
      pose proof (min5_lower a b c d e) as (Ha & _);
      assert (0 <= Rmin (Rmin (Rmin (Rmin a b) c) d) e)
        by (repeat apply Rmin_glb; nra)
  end.
  cbv zeta in Ha. lra.
Qed.

(** X9.  The zero price is absorbing.  A tick on a stream whose price is
    zero (with anchors not negative, strengths in (0, 1) and a variance not
    negative) returns a bar whenever its floats stay in range ([math.exp] is
    evaluated before the product with the zero open): the guard on the open
    sets the return to 0, the candidate close 0 meets the upper bound 0, so
    the close is 0 and the trend -1, and the stream is in the same condition
    after the tick. *)
Theorem zero_price_absorbing (st : SyntheticStream) (now : datetime) (z : R) :
  zero_priced st ->
  tick_in_range st now z ->
  exists st',
    _generate_one_second st now z = (st', Ok (make_bar now 0 0))
    /\ p st' = 0
    /\ prev_return st' = 0
    /\ boundary_trend st' = (-1)%Z
    /\ zero_priced st'.
Proof.
  intros Hz [Hr He].
  pose proof (update_anchors_zero_priced st now Hz) as Hz1.
  destruct (zero_priced_boundary _ Hz1) as (lo & Hb).
  destruct (update_anchors_frame st now) as (Hp & Hrs & Hgv & Hpr & Hbt).
  pose proof (garch_recursion_omega (prev_return st) _ (zp_gv _ Hz)) as Hnv.
  unfold GARCH_OMEGA in Hnv.
  assert (He' : forall t, enforce_boundaries (0 * exp (tick_exponent st now z)) lo 0 t
                          = (0, (-1)%Z)).
  { intros t. unfold enforce_boundaries. case_decide; [reflexivity | lra]. }
  assert (Hl : log_return 0 0 = Ok 0) by (unfold log_return; now rewrite decide_True).
  eexists. split.
  - unfold _generate_one_second.
    rewrite Hpr, Hgv, garch_returns by (try assumption; lra).
    rewrite effective_boundary_set_garch_variance, Hb.
    cbn [p boundary_trend set_garch_variance]. rewrite Hp, (zp_p _ Hz), Hbt.
    rewrite (candidate_close_in_range 0 _ _ _ He).
    fold (tick_exponent st now z). rewrite He', Hl.
    reflexivity.
  - destruct Hz1 as [_ Hd1 Hh1 Hm5 Hm1 Hrs1 _].
    repeat split; try reflexivity; try assumption.
    change (0 <= garch_recursion (prev_return st) (garch_variance st)). lra.
Qed.

Lemma zero_stream_zero_priced : zero_priced zero_stream.
Proof.
  unfold zero_stream.
  split; cbn [p d1_open h1_open m5_open m1_open garch_variance reversion_strength];
    try lra.
  repeat constructor; eexists; (split; [reflexivity | lra]).
Qed.

Lemma zero_stream_in_range (now : datetime) (z : R) :
  z <= 100 -> tick_in_range zero_stream now z.
Proof. intros Hz. unfold zero_stream. solve_in_range. Qed.

Lemma zero_price_absorbing_witness :
  exists st',
    _generate_one_second zero_stream noon_30s 1 = (st', Ok (make_bar noon_30s 0 0))
    /\ p st' = 0
    /\ prev_return st' = 0
    /\ boundary_trend st' = (-1)%Z
    /\ zero_priced st'.
Proof.
  apply (zero_price_absorbing zero_stream noon_30s 1 zero_stream_zero_priced).
  apply zero_stream_in_range. lra.
Defined.

(** ** Streams do not interfere *)

(** X10.  In a second that ends without an exception every stream was
    ticked with its own variate, whatever the others did; with distinct
    symbols the history of each symbol gained exactly the bar of its stream
    (trimmed to the window), and the history of a symbol without a stream is
    untouched. *)
Theorem one_second_per_stream (sts sts' : list (string * SyntheticStream))
    (h h' : gmap string (list Bar)) (now : datetime) (z_of : string -> R) :
  generate_all sts h now z_of = (sts', h', None) ->
  NoDup sts.*1 ->
  sts' = ticked now z_of <$> sts
  /\ (forall k v, (k, v) ∈ sts ->
        exists bar,
          (_generate_one_second v now (z_of k)).2 = Ok bar
          /\ h' !! k = Some (append_bar (default [] (h !! k)) bar))
  /\ (forall k, k ∉ sts.*1 -> h' !! k = h !! k).
Proof.
  intros Hg Hnd. split; [apply (generate_all_states _ _ _ _ _ _ Hg)|]. split.
  - intros k v Hin.
    destruct (generate_all_history _ _ _ _ _ _ k v Hg Hnd Hin) as (bar & Hb & Hh & _).
    eauto.
  - intros k Hk. apply (generate_all_history_other _ _ _ _ _ _ _ k Hg Hk).
Qed.

Lemma one_second_per_stream_witness :
  exists sts' h',
    generate_all [("AAPL", scenario_stream); ("GOOG", clamped_stream)] ∅
      noon_30s (fun _ => 0) = (sts', h', None)
    /\ sts' = ticked noon_30s (fun _ => 0)
              <$> [("AAPL", scenario_stream); ("GOOG", clamped_stream)].
Proof.
  destruct (generate_all_steady noon_30s (fun _ => 0) 1.1e-4 1000
              [("AAPL", scenario_stream); ("GOOG", clamped_stream)] ∅
              ltac:(lra) scenario_exponent ltac:(intros; lra))
    as (sts' & h' & Hg & _).
  { constructor; [apply scenario_steady|].
    constructor; [apply clamped_steady | constructor]. }
  exists sts', h'. split; [exact Hg|].
  apply (one_second_per_stream _ sts' ∅ h' noon_30s (fun _ => 0) Hg).
  change (NoDup ["AAPL"; "GOOG"]). apply (bool_decide_unpack _). vm_compute. exact I.
Defined.

(** X11.  When the tick of a stream raises, the second ends there: the
    streams before it have been ticked and their bars recorded, the failing
    stream is left as its tick left it, and the streams after it are not
    touched and get no bar. *)
Theorem failing_stream_ends_second
    (pre pre' post : list (string * SyntheticStream)) (h h1 : gmap string (list Bar))
    (now : datetime) (z_of : string -> R)
    (s : string) (st st' : SyntheticStream) (e : exn) :
  generate_all pre h now z_of = (pre', h1, None) ->
  _generate_one_second st now (z_of s) = (st', Raise e) ->
  generate_all (pre ++ (s, st) :: post) h now z_of
  = (pre' ++ (s, st') :: post, h1, Some e).
Proof.
  intros Hpre Ht. rewrite generate_all_app, Hpre.
  cbn [generate_all]. rewrite Ht. reflexivity.
Qed.

Lemma failing_stream_ends_second_witness :
  exists pre' h1,
    generate_all [("AAPL", scenario_stream); ("GOOG", negative_variance_stream);
                  ("AMZN", clamped_stream)] ∅ noon_30s (fun _ => 0)
    = (pre' ++ [("GOOG", update_anchors negative_variance_stream noon_30s);
                ("AMZN", clamped_stream)], h1, Some ValueError).
Proof.
  destruct (generate_all_steady noon_30s (fun _ => 0) 1.1e-4 1000
              [("AAPL", scenario_stream)] ∅
              ltac:(lra) scenario_exponent ltac:(intros; lra))
    as (pre' & h1 & Hg & _).
  { constructor; [apply scenario_steady | constructor]. }
  exists pre', h1.
  apply (failing_stream_ends_second [("AAPL", scenario_stream)] pre'
           [("AMZN", clamped_stream)] ∅ h1 noon_30s (fun _ => 0)
           "GOOG" negative_variance_stream _ ValueError Hg).
  apply tick_sqrt_raises; [exact zero_return_in_range | exact negative_variance_recursion].
Defined.

(** ** The turns of the loop *)

Lemma stream_of_ticked (now : datetime) (z_of : string -> R) (k : string)
    (sts : list (string * SyntheticStream)) :
  stream_of k (ticked now z_of <$> sts)
  = (fun v => (_generate_one_second v now (z_of k)).1) <$> stream_of k sts.
Proof.
  induction sts as [|[s v] rest IH]; [reflexivity|].
  cbn. case_decide as E; [now subst | exact IH].
Qed.

Lemma stream_of_elem (k : string) (v : SyntheticStream)
    (sts : list (string * SyntheticStream)) :
  stream_of k sts = Some v -> (k, v) ∈ sts.
Proof.
  induction sts as [|[s w] rest IH]; [discriminate|].
  cbn. case_decide as E.
  - intros [= ->]. subst. apply elem_of_cons. now left.
  - intros H. apply elem_of_cons. right. apply IH, H.
Qed.

Lemma stream_of_NoDup (k : string) (v : SyntheticStream)
    (sts : list (string * SyntheticStream)) :
  NoDup sts.*1 -> (k, v) ∈ sts -> stream_of k sts = Some v.
Proof.
  induction sts as [|[s w] rest IH]; intros Hnd Hin; [now apply elem_of_nil in Hin|].
  cbn [fmap list_fmap fst] in Hnd. apply NoDup_cons in Hnd as [Hfresh Hnd].
  cbn. apply elem_of_cons in Hin as [[= -> ->]|Hin].
  - now rewrite decide_True.
  - rewrite decide_False; [now apply IH|].
    intros ->. apply Hfresh, list_elem_of_fmap. now exists (k, v).
Qed.

Lemma stream_of_is_Some (k : string) (sts : list (string * SyntheticStream)) :
  k ∈ sts.*1 -> is_Some (stream_of k sts).
Proof.
  induction sts as [|[s w] rest IH]; cbn; [intros H; now apply elem_of_nil in H|].
  intros [->|Hin]%elem_of_cons.
  - now rewrite decide_True.
  - case_decide; [eauto | now apply IH].
Qed.

Lemma ticked_symbols (now : datetime) (z_of : string -> R)
    (sts : list (string * SyntheticStream)) :
  (ticked now z_of <$> sts).*1 = sts.*1.
Proof. induction sts as [|[s v] rest IH]; cbn; [reflexivity | now rewrite IH]. Qed.

(** X12.  The log line of a save reads [states['AAPL']]: when no stream
    has that symbol (a state file of other symbols), the first turn whose
    minute differs from the last saved one, the program's first turn
    included, raises [KeyError('AAPL')] after the bars of the second have
    been generated and the minute recorded, and before anything is written. *)
Theorem log_line_needs_aapl (l : Loop) (now : datetime) (z_of : string -> R)
    (sts' : list (string * SyntheticStream)) (h' : gmap string (list Bar)) :
  generate_all (states l) (history l) now z_of = (sts', h', None) ->
  stream_of "AAPL" (states l) = None ->
  minute now <> last_save_minute l ->
  loop_turn l now z_of = (mkLoop sts' h' (minute now), None, Some (KeyError "AAPL")).
Proof.
  intros Hg Ha Hm. unfold loop_turn. rewrite Hg.
  destruct (generate_all_states _ _ _ _ _ _ Hg) as [-> _].
  rewrite decide_True by assumption.
  rewrite stream_of_ticked, Ha. reflexivity.
Qed.

Lemma log_line_needs_aapl_witness :
  exists sts' h',
    loop_turn (mkLoop [("GOOG", scenario_stream)] ∅ (-1)) noon_30s (fun _ => 0)
    = (mkLoop sts' h' 0, None, Some (KeyError "AAPL")).
Proof.
  destruct (generate_all_steady noon_30s (fun _ => 0) 1.1e-4 1000
              [("GOOG", scenario_stream)] ∅
              ltac:(lra) scenario_exponent ltac:(intros; lra))
    as (sts' & h' & Hg & _).
  { constructor; [apply scenario_steady | constructor]. }
  exists sts', h'.
  apply (log_line_needs_aapl (mkLoop [("GOOG", scenario_stream)] ∅ (-1))
           noon_30s (fun _ => 0) sts' h' Hg).
  - reflexivity.
  - cbn. lia.
Defined.

(** A turn on steady streams that include AAPL, with variates up to [B],
    does not raise; it saves exactly when the minute differs from the last
    saved one. *)
Lemma loop_turn_total (M B : R) (l : Loop) (now : datetime) (z_of : string -> R) :
  0 <= B -> exponent_in_range M B ->
  (forall s, z_of s <= B) ->
  Forall (fun sv => steady M sv.2) (states l) ->
  "AAPL" ∈ (states l).*1 ->
  exists l',
    loop_turn l now z_of
    = (l',
       (if decide (minute now <> last_save_minute l)
        then Some (snapshot_of (states l'), history l') else None),
       None)
    /\ Forall (fun sv => steady M sv.2) (states l')
    /\ (states l').*1 = (states l).*1.
Proof.
  intros HB Hexp Hz Hst Ha.
  destruct (generate_all_steady now z_of M B _ (history l) HB Hexp Hz Hst)
    as (sts' & h' & Hg & Hst' & Hk).
  unfold loop_turn. rewrite Hg.
  case_decide as Hm.
  - destruct (stream_of_is_Some "AAPL" sts') as [v Hv]; [now rewrite Hk|].
    rewrite Hv. exists (mkLoop sts' h' (minute now)). split; [reflexivity|]. cbn. auto.
  - exists (mkLoop sts' h' (last_save_minute l)). split; [reflexivity|]. cbn. auto.
Qed.

Lemma new_states_value (draws : string -> R * InitDraws) :
  exists sts,
    new_states draws = Ok sts
    /\ sts.*1 = SYMBOLS
    /\ Forall2 (fun s sv => __init__ (uniform 50 200 (draws s).1) (draws s).2 = Ok sv.2)
         SYMBOLS sts.
Proof.
  unfold new_states, SYMBOLS.
  eexists. split; [reflexivity|]. split; [reflexivity|].
  repeat constructor.
Qed.

(** The cap of the variance grows with the one-second strength. *)
Lemma variance_cap_mono (r r' : R) :
  0 <= r <= r' -> r' < 1 -> variance_cap r <= variance_cap r'.
Proof.
  intros Hr Hr'. unfold variance_cap, return_bound, GARCH_BETA.
  assert (H0 : 0 <= r / (1 - r))
    by (apply Rmult_le_pos; [lra | left; apply Rinv_0_lt_compat; lra]).
  assert (Hle : r / (1 - r) <= r' / (1 - r')).
  { apply (Rmult_le_reg_r ((1 - r) * (1 - r'))); [nra|].
    replace (r / (1 - r) * ((1 - r) * (1 - r'))) with (r * (1 - r')) by (field; lra).
    replace (r' / (1 - r') * ((1 - r) * (1 - r'))) with (r' * (1 - r)) by (field; lra).
    nra. }
  unfold GARCH_OMEGA, GARCH_ALPHA, GARCH_GAMMA.
  apply Rmult_le_compat_r; [lra|]. nra.
Qed.

Lemma init_value (initial_price : R) (u : InitDraws) :
  __init__ initial_price u
  = Ok {| p := initial_price;
          d1_open := initial_price; h1_open := initial_price;
          m5_open := initial_price; m1_open := initial_price;
          reversion_strength :=
            {[ "s1" := uniform 0.001 0.02 (u_s1 u) / 2.0;
               "m1" := uniform 0.002 0.05 (u_m1 u) / 2.0;
               "m5" := uniform 0.005 0.07 (u_m5 u) / 2.0;
               "h1" := uniform 0.01 0.10 (u_h1 u) / 2.0;
               "d1" := uniform 0.10 0.10 (u_d1 u) / 2.0 ]};
          garch_variance := 1e-5;
          prev_return := 0.0;
          boundary_trend := 0 |}.
Proof. reflexivity. Qed.

(** A fresh stream is steady: its variance 1e-5 is below the level 1.1e-4,
    which is above the cap of every one-second strength the constructor can
    draw. *)
Lemma fresh_stream_steady (initial_price : R) (u : InitDraws) :
  0 < initial_price -> unit_draws u ->
  exists st, __init__ initial_price u = Ok st /\ steady 1.1e-4 st.
Proof.
  intros Hp Hu.
  destruct (fresh_stream_stable initial_price u Hp Hu) as (st & Hi & Hwf & Hwb).
  exists st. split; [exact Hi|].
  rewrite init_value in Hi. injection Hi as <-.
  assert (Hs1 : 0 <= u_s1 u < 1)
    by (unfold unit_draws in Hu; now apply Forall_cons_1 in Hu as [? _]).
  set (r := uniform 0.001 0.02 (u_s1 u) / 2.0).
  assert (Hr : 0 < r <= 0.01) by (unfold r, uniform; lra).
  exists r. split.
  - eapply Rle_trans; [apply (variance_cap_mono r 0.01); lra | exact scenario_cap].
  - assert (Hrho : 0 <= return_bound r)
      by (apply Rmult_le_pos; [lra | left; apply Rinv_0_lt_compat; lra]).
    split; try assumption; cbn [prev_return garch_variance boundary_trend].
    + reflexivity.
    + lra.
    + lra.
    + right. left. reflexivity.
Qed.

Lemma new_states_steady (draws : string -> R * InitDraws) :
  unit_draws_all draws ->
  exists sts,
    new_states draws = Ok sts
    /\ sts.*1 = SYMBOLS
    /\ Forall (fun sv => steady 1.1e-4 sv.2 /\ well_formed sv.2 /\ 50 <= p sv.2 < 200) sts.
Proof.
  intros Hu.
  destruct (new_states_value draws) as (sts & Hs & Hk & Hall).
  exists sts. split; [exact Hs|]. split; [exact Hk|].
  clear Hs Hk. induction Hall as [|s sv syms sts Hi _ IH]; constructor; [|exact IH].
  destruct (Hu s) as [Hp Hd].
  assert (Hprice : 50 <= uniform 50 200 (draws s).1 < 200) by (unfold uniform; lra).
  assert (Hpos : 0 < uniform 50 200 (draws s).1) by lra.
  destruct (fresh_stream_steady _ _ Hpos Hd) as (st & Hi' & Hst).
  rewrite Hi in Hi'. injection Hi' as <-.
  split; [exact Hst|].
  split; [destruct Hst as (r & _ & Hcalm); apply (calm_wf _ _ _ Hcalm)|].
  destruct (init_returns (uniform 50 200 (draws s).1) (draws s).2) as (st & Hi' & Hpst).
  rewrite Hi in Hi'. injection Hi' as <-. now rewrite Hpst.
Qed.

Lemma steady_well_formed (M : R) (sts : list (string * SyntheticStream)) :
  Forall (fun sv => steady M sv.2) sts -> Forall (fun sv => well_formed sv.2) sts.
Proof.
  intros H. eapply Forall_impl; [exact H|].
  intros sv (r & _ & Hcalm). apply (calm_wf _ _ _ Hcalm).
Qed.

Lemma main_run_total (M B : R) (ticks : list (datetime * (string -> R))) (l : Loop) :
  0 <= B -> exponent_in_range M B ->
  all_variates_below B ticks ->
  Forall (fun sv => steady M sv.2) (states l) ->
  "AAPL" ∈ (states l).*1 ->
  exists l' saves,
    main_run l ticks = (l', saves, None)
    /\ Forall (fun sv => steady M sv.2) (states l')
    /\ (states l').*1 = (states l).*1.
Proof.
  intros HB Hexp. revert l.
  induction ticks as [|[now z_of] rest IH]; intros l Hz Hst Ha.
  - exists l, []. auto.
  - apply Forall_cons in Hz as [Hz Hrest]. cbn [snd] in Hz.
    destruct (loop_turn_total M B l now z_of HB Hexp Hz Hst Ha) as (l1 & Ht & Hst1 & Hk1).
    destruct (IH l1 Hrest Hst1) as (l' & saves & Hr & Hst' & Hk'); [now rewrite Hk1|].
    cbn [main_run]. rewrite Ht, Hr.
    eexists _, _. split; [reflexivity|]. split; [exact Hst'|]. now rewrite Hk', Hk1.
Qed.

(** X13.  Started without a state file, the program never raises as long
    as no normal variate exceeds 1000 ([random.gauss] returns values within a
    few units of 0): the five streams are built at prices in [50, 200), and
    whatever the clock readings, every turn ticks all five and leaves them
    well-formed. *)
Theorem fresh_program_never_raises (draws : string -> R * InitDraws)
    (ticks : list (datetime * (string -> R))) :
  unit_draws_all draws ->
  all_variates_below 1000 ticks ->
  exists sts l' saves,
    new_states draws = Ok sts
    /\ Forall (fun sv => 50 <= p sv.2 < 200) sts
    /\ main_run (mkLoop sts new_history (-1)) ticks = (l', saves, None)
    /\ (states l').*1 = SYMBOLS
    /\ Forall (fun sv => well_formed sv.2) (states l').
Proof.
  intros Hu Hz.
  destruct (new_states_steady draws Hu) as (sts & Hs & Hk & Hall).
  assert (Hst : Forall (fun sv => steady 1.1e-4 sv.2) sts)
    by (eapply Forall_impl; [exact Hall | intros sv (H & _ & _); exact H]).
  destruct (main_run_total 1.1e-4 1000 ticks (mkLoop sts new_history (-1))
              ltac:(lra) scenario_exponent Hz Hst) as (l' & saves & Hr & Hst' & Hk').
  { cbn [states]. rewrite Hk. unfold SYMBOLS. set_solver. }
  exists sts, l', saves. split; [exact Hs|]. split.
  - eapply Forall_impl; [exact Hall | intros sv (_ & _ & H); exact H].
  - split; [exact Hr|]. split; [|now apply (steady_well_formed 1.1e-4)].
    cbn [states] in Hk'. now rewrite Hk', Hk.
Qed.

Lemma half_draws_unit : unit_draws_all (fun _ => (0.5, mkDraws 0.5 0.5 0.5 0.5 0.5)).
Proof.
  intros s. cbn [fst snd]. split; [lra|].
  unfold unit_draws. cbn [u_s1 u_m1 u_m5 u_h1 u_d1].
  repeat (apply Forall_cons; split; [lra|]). constructor.
Qed.

Lemma fresh_program_never_raises_witness :
  exists sts l' saves,
    new_states (fun _ => (0.5, mkDraws 0.5 0.5 0.5 0.5 0.5)) = Ok sts
    /\ Forall (fun sv => 50 <= p sv.2 < 200) sts
    /\ main_run (mkLoop sts new_history (-1))
         [(noon_30s, fun _ => 0); (noon_1min, fun _ => 1)] = (l', saves, None)
    /\ (states l').*1 = SYMBOLS
    /\ Forall (fun sv => well_formed sv.2) (states l').
Proof.
  apply (fresh_program_never_raises (fun _ => (0.5, mkDraws 0.5 0.5 0.5 0.5 0.5))
           [(noon_30s, fun _ => 0); (noon_1min, fun _ => 1)]).
  - exact half_draws_unit.
  - repeat constructor; cbn; intros; lra.
Defined.

(** ** Saving and restarting *)

Lemma restore_snapshot (draws : string -> InitDraws)
    (sts : list (string * SyntheticStream)) :
  restore_states draws (snapshot_of sts) = Some sts.
Proof.
  unfold restore_states, snapshot_of.
  induction sts as [|[s v] rest IH]; [reflexivity|].
  cbn [fmap list_fmap mapM fst snd]. rewrite from_dict_to_dict. cbn.
  rewrite IH. reflexivity.
Qed.

(** X14.  What a turn saves is the state of the loop after the ticks of
    that second: the snapshot restores, whatever the constructor draws on
    restart, to exactly the streams the loop goes on with, and the saved
    history is the one it holds.  A turn saves only when its minute differs
    from the last saved one, which it then records. *)
Theorem save_restores_loop (l l' : Loop) (now : datetime) (z_of : string -> R)
    (saved : Saved) (draws : string -> InitDraws) :
  loop_turn l now z_of = (l', Some saved, None) ->
  restore_states draws saved.1 = Some (states l')
  /\ saved.2 = history l'
  /\ generate_all (states l) (history l) now z_of = (states l', history l', None)
  /\ minute now <> last_save_minute l
  /\ last_save_minute l' = minute now.
Proof.
  unfold loop_turn.
  destruct (generate_all _ _ now z_of) as [[sts' h'] [e|]]; [intros [=]|].
  case_decide as Hm; [|intros [=]].
  destruct (stream_of "AAPL" sts'); intros [= <- <-].
  cbn [fst snd states history last_save_minute]. rewrite restore_snapshot. auto.
Qed.

Lemma save_restores_loop_witness :
  exists l' saved,
    loop_turn (mkLoop [("AAPL", scenario_stream)] ∅ (-1)) noon_30s (fun _ => 0)
    = (l', Some saved, None)
    /\ restore_states (fun _ => mkDraws 0.5 0.5 0.5 0.5 0.5) saved.1 = Some (states l').
Proof.
  destruct (loop_turn_total 1.1e-4 1000 (mkLoop [("AAPL", scenario_stream)] ∅ (-1))
              noon_30s (fun _ => 0) ltac:(lra) scenario_exponent ltac:(intros; lra))
    as (l' & Ht & _).
  { constructor; [apply scenario_steady | constructor]. }
  { cbn. set_solver. }
  rewrite decide_True in Ht by (cbn; lia).
  exists l', (snapshot_of (states l'), history l'). split; [exact Ht|].
  apply (save_restores_loop _ l' noon_30s (fun _ => 0) _ _ Ht).
Defined.

(** ** The loop and the run of one stream *)

Lemma loop_turn_generates (l l' : Loop) (now : datetime) (z_of : string -> R)
    (saved : option Saved) :
  loop_turn l now z_of = (l', saved, None) ->
  generate_all (states l) (history l) now z_of = (states l', history l', None).
Proof.
  unfold loop_turn.
  destruct (generate_all _ _ now z_of) as [[sts' h'] [e|]]; [intros [=]|].
  case_decide.
  - destruct (stream_of "AAPL" sts'); intros [= <- _]; reflexivity.
  - intros [= <- _]. reflexivity.
Qed.

Lemma main_run_cons_inv (l l' : Loop) (now : datetime) (z_of : string -> R)
    (rest : list (datetime * (string -> R))) (saves : list Saved) :
  main_run l ((now, z_of) :: rest) = (l', saves, None) ->
  exists l1 saved saves',
    loop_turn l now z_of = (l1, saved, None)
    /\ main_run l1 rest = (l', saves', None).
Proof.
  cbn [main_run].
  destruct (loop_turn l now z_of) as [[l1 saved] [e|]]; [intros [=]|].
  destruct (main_run l1 rest) as [[l_end saves'] e] eqn:Hr.
  intros [= <- _ ->]. eauto.
Qed.

(** X15.  The loop runs each stream on its own.  When the loop has gone
    through its clock readings without an exception, the stream of each
    symbol is where the run of that stream alone, on the same readings and its
    own variates, ends; that run did not raise, and the history of the symbol
    is the old one with the bars of the run appended one by one. *)
Theorem loop_runs_each_stream (ticks : list (datetime * (string -> R)))
    (l l' : Loop) (saves : list Saved) (k : string) (v : SyntheticStream) :
  NoDup (states l).*1 ->
  (k, v) ∈ states l ->
  main_run l ticks = (l', saves, None) ->
  let r := run v (stream_ticks k ticks) in
  r.2 = None
  /\ stream_of k (states l') = Some r.1.2
  /\ default [] (history l' !! k)
     = fold_left append_bar r.1.1 (default [] (history l !! k)).
Proof.
  revert l v saves. induction ticks as [|[now z_of] rest IH]; intros l v saves Hnd Hin Hr.
  - cbn in Hr. injection Hr as <- _. cbn.
    split; [reflexivity|]. split; [now apply stream_of_NoDup | reflexivity].
  - destruct (main_run_cons_inv _ _ _ _ _ _ Hr) as (l1 & saved & saves' & Ht & Hr1).
    pose proof (loop_turn_generates _ _ _ _ _ Ht) as Hg.
    destruct (generate_all_history _ _ _ _ _ _ k v Hg Hnd Hin) as (bar & Hb & Hh & Hs).
    destruct (generate_all_states _ _ _ _ _ _ Hg) as [Hst _].
    assert (Hnd1 : NoDup (states l1).*1) by (rewrite Hst, ticked_symbols; exact Hnd).
    destruct (IH l1 _ _ Hnd1 (stream_of_elem _ _ _ Hs) Hr1) as (He & Hend & Hhist).
    cbv zeta. unfold stream_ticks in *. cbn [fmap list_fmap fst snd run].
    destruct (_generate_one_second v now (z_of k)) as [v1 res] eqn:Hv.
    cbn [fst snd] in *. subst res.
    destruct (run v1 _) as [[bars st_end] e]. cbn [fst snd] in *.
    split; [exact He|]. split; [exact Hend|].
    rewrite Hhist, Hh. reflexivity.
Qed.

Lemma loop_runs_each_stream_witness :
  exists l' saves,
    main_run (mkLoop [("AAPL", scenario_stream); ("GOOG", clamped_stream)] ∅ (-1))
      [(noon_30s, fun _ => 0); (noon_1min, fun _ => 1)] = (l', saves, None)
    /\ stream_of "GOOG" (states l')
       = Some (run clamped_stream [(noon_30s, 0); (noon_1min, 1)]).1.2.
Proof.
  destruct (main_run_total 1.1e-4 1000
              [(noon_30s, fun _ => 0); (noon_1min, fun _ => 1)]
              (mkLoop [("AAPL", scenario_stream); ("GOOG", clamped_stream)] ∅ (-1))
              ltac:(lra) scenario_exponent)
    as (l' & saves & Hr & _).
  { repeat constructor; cbn; intros; lra. }
  { constructor; [apply scenario_steady|].
    constructor; [apply clamped_steady | constructor]. }
  { cbn. set_solver. }
  exists l', saves. split; [exact Hr|].
  assert (Hnd : NoDup ["AAPL"; "GOOG"])
    by (apply (bool_decide_unpack _); vm_compute; exact I).
  assert (Hin : ("GOOG", clamped_stream)
                ∈ [("AAPL", scenario_stream); ("GOOG", clamped_stream)])
    by (apply elem_of_cons; right; apply elem_of_cons; now left).
  exact (proj1 (proj2 (loop_runs_each_stream
                         [(noon_30s, fun _ => 0); (noon_1min, fun _ => 1)]
                         (mkLoop [("AAPL", scenario_stream); ("GOOG", clamped_stream)]
                            ∅ (-1))
                         l' saves "GOOG" clamped_stream Hnd Hin Hr))).
Defined.

(** ** Bars follow one another *)

(** X16.  The bars of a run are continuous: the first opens at the price
    the run starts from, and each later bar opens at the close of the bar
    before it (both rounded to two decimals). *)
Theorem bars_are_continuous (ticks : list (datetime * R)) (st : SyntheticStream) :
  let bars := (run st ticks).1.1 in
  (forall b, bars !! 0%nat = Some b -> bar_o b = py_round2 (p st))
  /\ (forall i b1 b2,
        bars !! i = Some b1 -> bars !! S i = Some b2 -> bar_o b2 = bar_c b1).
Proof.
  revert st. induction ticks as [|[now z] rest IH]; intros st.
  - cbn. split; intros; discriminate.
  - cbn [run].
    destruct (_generate_one_second st now z) as [st' [bar|e]] eqn:Ht;
      [|cbn; split; intros; discriminate].
    destruct (IH st') as [IH0 IHs].
    destruct (run st' rest) as [[bars st_end] e]. cbn [fst snd] in *.
    destruct (tick_ok_inv _ _ _ _ _ Ht) as (_ & _ & _ & _ & _ & _ & _ & _ & _ & Hbar).
    split.
    + intros b [= <-]. subst bar. reflexivity.
    + intros [|i] b1 b2; cbn.
      * intros [= <-] Hb2. rewrite (IH0 _ Hb2). subst bar. reflexivity.
      * apply IHs.
Qed.

(** ** The drift of the trend *)



(** ** A fresh stream *)

(** X20.  The constructor draws each reversion strength as half a width
    from the configured range of its timeframe: with variates in [0, 1) the
    strengths lie in [0.0005, 0.01), [0.001, 0.025), [0.0025, 0.035) and
    [0.005, 0.05) for s1, m1, m5 and h1, and the daily strength is 0.05
    whatever is drawn; all four anchors start at the price. *)
Theorem init_strengths_in_range (initial_price : R) (u : InitDraws) :
  unit_draws u ->
  exists st r_s1 r_m1 r_m5 r_h1,
    __init__ initial_price u = Ok st
    /\ reversion_strength st
       = {[ "s1" := r_s1; "m1" := r_m1; "m5" := r_m5; "h1" := r_h1; "d1" := 0.05 ]}
    /\ 0.0005 <= r_s1 < 0.01
    /\ 0.001 <= r_m1 < 0.025
    /\ 0.0025 <= r_m5 < 0.035
    /\ 0.005 <= r_h1 < 0.05
    /\ (d1_open st, h1_open st, m5_open st, m1_open st)
       = (initial_price, initial_price, initial_price, initial_price).
Proof.
  intros Hu. unfold unit_draws in Hu.
  repeat match goal with
         | H : Forall _ (_ :: _) |- _ => apply Forall_cons_1 in H; destruct H as [? H]
         end.
  eexists _, (uniform 0.001 0.02 (u_s1 u) / 2.0), (uniform 0.002 0.05 (u_m1 u) / 2.0),
    (uniform 0.005 0.07 (u_m5 u) / 2.0), (uniform 0.01 0.10 (u_h1 u) / 2.0).
  split; [reflexivity|].
  cbn [reversion_strength d1_open h1_open m5_open m1_open].
  split.
  - do 4 f_equal. unfold uniform. f_equal. lra.
  - unfold uniform. repeat split; lra.
Qed.

Lemma init_strengths_in_range_witness :
  exists st r_s1 r_m1 r_m5 r_h1,
    __init__ 100 (mkDraws 0.5 0.5 0.5 0.5 0.5) = Ok st
    /\ reversion_strength st
       = {[ "s1" := r_s1; "m1" := r_m1; "m5" := r_m5; "h1" := r_h1; "d1" := 0.05 ]}
    /\ 0.0005 <= r_s1 < 0.01
    /\ 0.001 <= r_m1 < 0.025
    /\ 0.0025 <= r_m5 < 0.035
    /\ 0.005 <= r_h1 < 0.05
    /\ (d1_open st, h1_open st, m5_open st, m1_open st) = (100, 100, 100, 100).
Proof.
  apply (init_strengths_in_range 100 (mkDraws 0.5 0.5 0.5 0.5 0.5)).
  unfold unit_draws. cbn [u_s1 u_m1 u_m5 u_h1 u_d1].
  repeat (apply Forall_cons; split; [lra|]). constructor.
Defined.

(** ** Restoring a partial snapshot *)

Lemma to_dict_lookup (st : SyntheticStream) (i : string) :
  to_dict st !! i
  = if decide ("p" = i) then Some (PyFloat (p st))
    else if decide ("d1_open" = i) then Some (PyFloat (d1_open st))
    else if decide ("h1_open" = i) then Some (PyFloat (h1_open st))
    else if decide ("m5_open" = i) then Some (PyFloat (m5_open st))
    else if decide ("m1_open" = i) then Some (PyFloat (m1_open st))
    else if decide ("reversion_strength" = i) then Some (PyDict (reversion_strength st))
    else if decide ("garch_variance" = i) then Some (PyFloat (garch_variance st))
    else if decide ("prev_return" = i) then Some (PyFloat (prev_return st))
    else if decide ("boundary_trend" = i) then Some (PyInt (boundary_trend st))
    else None.
Proof. unfold to_dict. rewrite !lookup_insert. rewrite lookup_singleton. reflexivity. Qed.

Lemma to_dict_same_keys (a b : SyntheticStream) (i : string) :
  to_dict a !! i = None -> to_dict b !! i = None.
Proof.
  rewrite !to_dict_lookup.
  repeat (destruct (decide (_ = i)); [discriminate|]).
  reflexivity.
Qed.

Lemma of_dict_entries (d : gmap string pyval) (st : SyntheticStream) :
  of_dict d = Some st -> to_dict st ⊆ d.
Proof.
  unfold of_dict, get_float, get_int, get_dict. intros H.
  (destruct (d !! "p") as [[?|?|?]|] eqn:?; cbn in H; try discriminate H;
  destruct (d !! "d1_open") as [[?|?|?]|] eqn:?; cbn in H; try discriminate H;
  destruct (d !! "h1_open") as [[?|?|?]|] eqn:?; cbn in H; try discriminate H;
  destruct (d !! "m5_open") as [[?|?|?]|] eqn:?; cbn in H; try discriminate H;
  destruct (d !! "m1_open") as [[?|?|?]|] eqn:?; cbn in H; try discriminate H;
  destruct (d !! "reversion_strength") as [[?|?|?]|] eqn:?; cbn in H; try discriminate H;
  destruct (d !! "garch_variance") as [[?|?|?]|] eqn:?; cbn in H; try discriminate H;
  destruct (d !! "prev_return") as [[?|?|?]|] eqn:?; cbn in H; try discriminate H;
  destruct (d !! "boundary_trend") as [[?|?|?]|] eqn:?; cbn in H; try discriminate H).
  injection H as <-.
  apply map_subseteq_spec. intros i val. rewrite to_dict_lookup.
  repeat (destruct (decide (_ = i)) as [<-|?]; [intros [= <-]; assumption|]).
  discriminate.
Qed.

(** An entry of a snapshot laid over a fresh stream comes from the
    snapshot or from the fresh stream. *)
Lemma partial_snapshot_lookup (data : gmap string pyval) (st fresh : SyntheticStream)
    (k : string) :
  data ⊆ to_dict st ->
  (data ∪ to_dict fresh) !! k = to_dict st !! k
  \/ (data ∪ to_dict fresh) !! k = to_dict fresh !! k.
Proof.
  intros Hsub. destruct (data !! k) as [v|] eqn:E.
  - left. rewrite (lookup_union_Some_l _ _ _ _ E).
    symmetry. exact (lookup_weaken _ _ _ _ E Hsub).
  - right. now apply lookup_union_r.
Qed.

Lemma partial_snapshot_typed (data : gmap string pyval) (st fresh : SyntheticStream) :
  data ⊆ to_dict st -> is_Some (of_dict (data ∪ to_dict fresh)).
Proof.
  intros Hsub.
  assert (Hf : forall k x y,
             to_dict st !! k = Some (PyFloat x) -> to_dict fresh !! k = Some (PyFloat y) ->
             is_Some (get_float (data ∪ to_dict fresh) k)).
  { intros k x y Hx Hy. unfold get_float.
    destruct (partial_snapshot_lookup data st fresh k Hsub) as [-> | ->];
      [rewrite Hx | rewrite Hy]; eauto. }
  destruct (Hf "p" _ _ eq_refl eq_refl) as [v1 E1].
  destruct (Hf "d1_open" _ _ eq_refl eq_refl) as [v2 E2].
  destruct (Hf "h1_open" _ _ eq_refl eq_refl) as [v3 E3].
  destruct (Hf "m5_open" _ _ eq_refl eq_refl) as [v4 E4].
  destruct (Hf "m1_open" _ _ eq_refl eq_refl) as [v5 E5].
  destruct (Hf "garch_variance" _ _ eq_refl eq_refl) as [v7 E7].
  destruct (Hf "prev_return" _ _ eq_refl eq_refl) as [v8 E8].
  assert (E6 : is_Some (get_dict (data ∪ to_dict fresh) "reversion_strength")).
  { unfold get_dict.
    destruct (partial_snapshot_lookup data st fresh "reversion_strength" Hsub)
      as [-> | ->]; cbn; eauto. }
  assert (E9 : is_Some (get_int (data ∪ to_dict fresh) "boundary_trend")).
  { unfold get_int.
    destruct (partial_snapshot_lookup data st fresh "boundary_trend" Hsub)
      as [-> | ->]; cbn; eauto. }
  destruct E6 as [v6 E6], E9 as [v9 E9].
  unfold of_dict. rewrite E1, E2, E3, E4, E5, E6, E7, E8, E9. cbn. eauto.
Qed.

(** X21.  [from_dict] on a partial snapshot, one that holds only some of
    the attributes of a stream, does not fail: the attributes it holds are
    restored and the others are those of the stream the constructor has just
    built at price 100.0.  In particular the empty dict gives that fresh
    stream. *)
Theorem from_dict_fills_defaults (data : gmap string pyval) (st : SyntheticStream)
    (u : InitDraws) :
  data ⊆ to_dict st ->
  exists fresh restored,
    __init__ 100.0 u = Ok fresh
    /\ from_dict u data = Some restored
    /\ to_dict restored = data ∪ to_dict fresh
    /\ (data = ∅ -> restored = fresh).
Proof.
  intros Hsub.
  destruct (init_returns 100.0 u) as (fresh & Hi & _).
  destruct (partial_snapshot_typed data st fresh Hsub) as [restored Hr].
  assert (Heq : to_dict restored = data ∪ to_dict fresh).
  { pose proof (of_dict_entries _ _ Hr) as Hent.
    apply map_eq. intros i.
    destruct (to_dict restored !! i) as [x|] eqn:E.
    - symmetry. exact (lookup_weaken _ _ _ _ E Hent).
    - symmetry. rewrite lookup_union_r.
      + exact (to_dict_same_keys _ _ _ E).
      + destruct (data !! i) as [v|] eqn:Ed; [|reflexivity].
        pose proof (lookup_weaken _ _ _ _ Ed Hsub) as Hst.
        rewrite (to_dict_same_keys restored st i E) in Hst. discriminate. }
  exists fresh, restored. unfold from_dict. rewrite Hi.
  split; [reflexivity|]. split; [exact Hr|]. split; [exact Heq|].
  intros ->. rewrite (left_id_L ∅ (∪)) in Hr.
  pose proof (of_dict_update fresh ∅) as Hf. rewrite (right_id_L ∅ (∪)) in Hf.
  congruence.
Qed.

Lemma from_dict_fills_defaults_witness :
  exists fresh restored,
    __init__ 100.0 (mkDraws 0.5 0.5 0.5 0.5 0.5) = Ok fresh
    /\ from_dict (mkDraws 0.5 0.5 0.5 0.5 0.5)
         (delete "boundary_trend" (to_dict clamped_stream)) = Some restored
    /\ to_dict restored = delete "boundary_trend" (to_dict clamped_stream) ∪ to_dict fresh
    /\ (delete "boundary_trend" (to_dict clamped_stream) = ∅ -> restored = fresh).
Proof.
  apply (from_dict_fills_defaults _ clamped_stream (mkDraws 0.5 0.5 0.5 0.5 0.5)).
  apply delete_subseteq.
Defined.

(** ** Rounding of the bars *)

Lemma round_half_even_close (y : R) : - (1 / 2) <= IZR (round_half_even y) - y <= 1 / 2.
Proof.
  pose proof (Int_part_bounds y) as Hy. unfold round_half_even.
  repeat case_decide; try destruct (Z.even (Int_part y)); rewrite ?plus_IZR; lra.
Qed.

Lemma py_round2_close (x : R) : - 0.005 <= py_round2 x - x <= 0.005.
Proof.
  pose proof (round_half_even_close (x * 100)) as H. unfold py_round2. lra.
Qed.

(** X22.  The prices of a bar are at most half a cent away from the prices
    of the stream: the open from the price entering the tick, the close from
    the price leaving it, the high and the low from the larger and the smaller
    of the two. *)
Theorem bar_within_half_cent (st : SyntheticStream) (now : datetime) (z : R)
    (st' : SyntheticStream) (bar : Bar) :
  _generate_one_second st now z = (st', Ok bar) ->
  - 0.005 <= bar_o bar - p st <= 0.005
  /\ - 0.005 <= bar_c bar - p st' <= 0.005
  /\ - 0.005 <= bar_h bar - Rmax (p st) (p st') <= 0.005
  /\ - 0.005 <= bar_l bar - Rmin (p st) (p st') <= 0.005.
Proof.
  intros Ht.
  destruct (tick_ok_inv _ _ _ _ _ Ht) as (_ & _ & _ & _ & _ & _ & _ & _ & _ & ->).
  cbn [make_bar bar_o bar_c bar_h bar_l].
  repeat split; apply py_round2_close.
Qed.

Lemma bar_within_half_cent_witness :
  exists st' bar,
    _generate_one_second scenario_stream noon_30s 0 = (st', Ok bar)
    /\ - 0.005 <= bar_c bar - p st' <= 0.005.
Proof.
  destruct (tick_total scenario_stream noon_30s 0 scenario_well_formed
              (scenario_in_range noon_30s 0 ltac:(lra))) as (st' & bar & Ht & _).
  exists st', bar. split; [exact Ht|].
  apply (bar_within_half_cent scenario_stream noon_30s 0 st' bar Ht).
Defined.
